(** * Parse.Config: the configuration cache accessor of the Parse JS SDK

    A shallow embedding of [src/ParseConfig.js] and the properties of its
    contract.  The module keeps one process-wide variable ([currentConfig]),
    allocates [ParseConfig] objects that it mutates in place, and talks to
    four collaborators that live in other files: the REST controller, the
    Storage controller, and the [decode] and [escape] utilities.

    - JavaScript data is a small inductive type; objects used as
      dictionaries are association lists kept in enumeration order.
    - A property read goes through the prototype chain: besides the data
      it can yield a member of a built-in prototype ([constructor],
      [toString], ...), and an assignment to [__proto__] replaces the
      prototype of the object instead of adding a property.
    - [ParseConfig] instances live in a heap and are named by their
      location, so that the object held by [currentConfig] and the object
      handed to the caller are the same object.
    - Synchronous code runs in a state monad whose outcome is either a
      value or a thrown error; a promise is the pending backend operation
      together with its [then] callback.
    - The collaborators are the fields of the class [Host]; calls to them
      are recorded in the world, the way a test spy would. *)

From Stdlib Require Import ZArith String List DecimalString Ascii Bool Lia.
From stdpp Require Import base option gmap list strings.

Set Warnings "-register-all".
Local Open Scope string_scope.

(** ** JavaScript values *)

(** The data that JSON texts, backend responses and [decode] deliver.
    Numbers are carried as integers: only the zero test of a number
    ([if (x)]) ever influences the control flow.  Every such value has the
    prototype of its kind: [Object.prototype] for an object,
    [Array.prototype] for an array, and so on. *)
Inductive value : Type :=
| VUndefined
| VNull
| VBool (b : bool)
| VNum (n : Z)
| VStr (s : string)
| VArr (elems : list value)
| VObj (props : list (string * value)).

(** [if (v)]: undefined, null, false, 0 and the empty string are falsy. *)
Definition truthy (v : value) : bool :=
  match v with
  | VUndefined | VNull => false
  | VBool b => b
  | VNum n => negb (n =? 0)%Z
  | VStr s => negb (String.eqb s EmptyString)
  | VArr _ | VObj _ => true
  end.

(** [typeof v === 'object']: true of null, of arrays and of objects. *)
Definition typeof_object (v : value) : bool :=
  match v with
  | VNull | VArr _ | VObj _ => true
  | _ => false
  end.

(** [v != null] is false exactly of null and undefined. *)
Definition not_nullish (v : value) : bool :=
  match v with
  | VUndefined | VNull => false
  | _ => true
  end.

(** Truthiness of a variable that holds a string or else null/undefined. *)
Definition truthy_string (o : option string) : bool :=
  match o with
  | Some s => negb (String.eqb s EmptyString)
  | None => false
  end.

(** The double quote, which a string literal cannot hold as it is. *)
Definition dquote : ascii := "034"%char.

Fixpoint assoc {A : Type} (k : string) (l : list (string * A)) : option A :=
  match l with
  | [] => None
  | (k', v) :: l' => if String.eqb k k' then Some v else assoc k l'
  end.

(** The property name of array index [i]: its decimal numeral. *)
Definition index_key (i : nat) : string :=
  NilEmpty.string_of_uint (Nat.to_uint i).

Fixpoint indexed_from {A : Type} (i : nat) (l : list A) : list (string * A) :=
  match l with
  | [] => []
  | x :: l' => (index_key i, x) :: indexed_from (S i) l'
  end.

Fixpoint chars (s : string) : list value :=
  match s with
  | EmptyString => []
  | String c s' => VStr (String c EmptyString) :: chars s'
  end.

(** The own enumerable properties of a value, in the order [for ... in]
    visits them: the properties of an object, the elements of an array
    under their indices, the characters of a string; nothing otherwise.
    These are all [for ... in] visits: what the built-in prototypes
    define is not enumerable. *)
Definition own_enumerable (o : value) : list (string * value) :=
  match o with
  | VObj props => props
  | VArr elems => indexed_from 0 elems
  | VStr s => indexed_from 0 (chars s)
  | _ => []
  end.

Definition own_keys (o : value) : list string := map fst (own_enumerable o).

(** The one own property that is not enumerable: [length]. *)
Definition own_length (o : value) : option value :=
  match o with
  | VArr elems => Some (VNum (Z.of_nat (length elems)))
  | VStr s => Some (VNum (Z.of_nat (String.length s)))
  | _ => None
  end.

(** The own property [k] of a value, if it has one. *)
Definition own_property (o : value) (k : string) : option value :=
  match assoc k (own_enumerable o) with
  | Some v => Some v
  | None => if String.eqb k "length" then own_length o else None
  end.

(** [o[k]] where the name is found among the own properties or nowhere.
    This is how [get()] reads a backend response: [response.params] (no
    built-in prototype has a member of that name) and [params[attr]] for
    a name that [for ... in] has just enumerated (an own property).  The
    program only reads properties of values it has tested to be truthy,
    so the TypeError of reading through null or undefined never arises;
    those two arms are here for totality.  Reads of [this.attributes] and
    [this._escapedAttributes], whose names come from the caller, go
    through the prototype chain: see [read] and [lookup_escaped]. *)
Definition get_prop (o : value) (k : string) : value :=
  match assoc k (own_enumerable o) with
  | Some v => v
  | None =>
      if String.eqb k "length" then default VUndefined (own_length o)
      else VUndefined
  end.

Definition has_own_property (o : value) (k : string) : bool :=
  match assoc k (own_enumerable o) with
  | Some _ => true
  | None => String.eqb k "length" && bool_decide (is_Some (own_length o))
  end.

(** [props[k] = v] on the property list of an object: an existing key
    keeps its place, a new key goes last. *)
Fixpoint set_assoc {A : Type} (k : string) (v : A) (l : list (string * A))
  : list (string * A) :=
  match l with
  | [] => [(k, v)]
  | (k', v') :: l' =>
      if String.eqb k k' then (k', v) :: l' else (k', v') :: set_assoc k v l'
  end.

(** ** Prototypes *)

(** The prototype objects of the language runtime that the values above
    inherit from. *)
Inductive builtin : Type :=
| ObjectPrototype
| ArrayPrototype
| StringPrototype
| NumberPrototype
| BooleanPrototype.

Definition builtin_of (v : value) : option builtin :=
  match v with
  | VObj _ => Some ObjectPrototype
  | VArr _ => Some ArrayPrototype
  | VStr _ => Some StringPrototype
  | VNum _ => Some NumberPrototype
  | VBool _ => Some BooleanPrototype
  | VUndefined | VNull => None
  end.

(** What a property read can yield: a value of the data, or something
    that lives in the runtime: the function found under [name] in a
    built-in prototype ([constructor] of [Object.prototype] is the
    function [Object]), or a built-in prototype itself (what
    [__proto__] yields). *)
Inductive member : Type :=
| Data (v : value)
| BuiltinMethod (b : builtin) (name : string)
| BuiltinPrototype (b : builtin).

Coercion Data : value >-> member.

(** Functions and prototype objects are truthy and are not null. *)
Definition truthy_member (m : member) : bool :=
  match m with
  | Data v => truthy v
  | _ => true
  end.

Definition not_nullish_member (m : member) : bool :=
  match m with
  | Data v => not_nullish v
  | _ => true
  end.

(** The functions that [Object.prototype] holds under a string name.
    Its remaining member, the accessor [__proto__], is treated apart. *)
Definition Object_prototype_methods : list string :=
  ["constructor"; "hasOwnProperty"; "isPrototypeOf"; "propertyIsEnumerable";
   "toLocaleString"; "toString"; "valueOf";
   "__defineGetter__"; "__defineSetter__";
   "__lookupGetter__"; "__lookupSetter__"].

Definition Object_prototype_has (k : string) : bool :=
  existsb (String.eqb k) Object_prototype_methods.

(** A name that every plain object answers to without having a property
    of that name. *)
Definition inherited_name (k : string) : bool :=
  String.eqb k "__proto__" || Object_prototype_has k.

(** An object that may have had its prototype replaced: the value it was
    created as, and the prototype that an assignment to [__proto__] has
    given it, if any ([Some VNull]: no prototype at all).  A value stands
    for the object with the prototype of its kind. *)
Record object : Type := {
  base : value;
  prototype : option value;
}.

Coercion plain (v : value) : object := {| base := v; prototype := None |}.

(** ** Errors *)

(** Modelled from the spec: the error-type definitions ([ParseError.js])
    are a collaborator outside this file; the one kind used here is
    INVALID_JSON. *)
Inductive ErrorKind : Type :=
| INVALID_JSON
| OtherKind (code : Z).

Inductive error : Type :=
| ParseError (code : ErrorKind) (message : string)
| TypeError (message : string)
| Failure (reason : string).

(** ** Objects, the module state and the spy *)

(** Objects are named by their position in the heap. *)
Abbreviation loc := nat (only parsing).

(** [class ParseConfig]: its two instance fields.  [_escapedAttributes]
    is a plain object that only ever receives strings; the map holds its
    own properties. *)
Record ParseConfig : Type := {
  attributes : object;
  _escapedAttributes : gmap string string;
}.

(** Calls made to the collaborators, in the order they are made. *)
Inductive call : Type :=
| Call_escape (str : string)
| Call_Storage_generatePath (key : string)
| Call_Storage_async
| Call_Storage_getItem (path : string)
| Call_Storage_getItemAsync (path : string)
| Call_Storage_setItemAsync (path val : string)
| Call_REST_request (method path : string) (params options : value).

Record World : Type := {
  heap : list ParseConfig;           (* the ParseConfig objects allocated so far *)
  currentConfig : option loc;        (* var currentConfig = null *)
  storage : gmap string string;      (* what the Storage backend holds *)
  calls : list call;                 (* the spy *)
}.

Definition set_heap (h : list ParseConfig) (w : World) : World :=
  {| heap := h; currentConfig := currentConfig w;
     storage := storage w; calls := calls w |}.

Definition set_currentConfig (c : option loc) (w : World) : World :=
  {| heap := heap w; currentConfig := c;
     storage := storage w; calls := calls w |}.

Definition set_storage (s : gmap string string) (w : World) : World :=
  {| heap := heap w; currentConfig := currentConfig w;
     storage := s; calls := calls w |}.

Definition set_calls (l : list call) (w : World) : World :=
  {| heap := heap w; currentConfig := currentConfig w;
     storage := storage w; calls := l |}.

(** The state of a freshly loaded module over a given backend store. *)
Definition initial_World (s : gmap string string) : World :=
  {| heap := []; currentConfig := None; storage := s; calls := [] |}.

(** ** The collaborators *)

(** What the other files and the language runtime provide.  [decode] and
    [JSON_parse] can throw.  [toString] is the built-in string conversion
    of a value's kind; that of an array converts the elements and throws
    when one of them cannot be converted.  [prototype_has] tells which
    string-named members the engine's [Array.prototype],
    [String.prototype], [Number.prototype] and [Boolean.prototype] have
    of their own (the editions of the language differ in them), and
    [builtin_toString] is the string conversion of a function or a
    prototype object of the runtime.  The last three fields say how the
    backends answer the asynchronous requests. *)
Class Host : Type := {
  decode : value -> error + value;
  escape : string -> string;
  JSON_parse : string -> option value;
  JSON_stringify : value -> string;
  toString : value -> error + string;
  prototype_has : builtin -> string -> bool;
  builtin_toString : member -> string;
  Storage_async : bool;
  Storage_generatePath : string -> string;
  REST_response : string -> string -> value -> value -> error + value;
  Storage_read_error : string -> option error;
  Storage_write_error : string -> string -> option error;
}.

(** ** Reading and assigning properties *)

(** What the chain that starts at the built-in prototype [b] holds under
    a name other than [__proto__]: a member of [b] itself, or else one
    of [Object.prototype], where every chain ends. *)
Definition builtin_member `{Host} (b : builtin) (k : string) : member :=
  match b with
  | ObjectPrototype =>
      if Object_prototype_has k then BuiltinMethod ObjectPrototype k
      else Data VUndefined
  | _ =>
      if prototype_has b k then BuiltinMethod b k
      else if Object_prototype_has k then BuiltinMethod ObjectPrototype k
      else Data VUndefined
  end.

(** The prototype of a value, as a property read yields it. *)
Definition prototype_of (v : value) : member :=
  match builtin_of v with
  | Some b => BuiltinPrototype b
  | None => Data VUndefined
  end.

(** What the value [v] inherits under the name [k], read on behalf of an
    object whose own prototype is [proto]: the accessor [__proto__] of
    [Object.prototype] yields the prototype of the object that is being
    read, not that of the object the accessor was found through. *)
Definition inherited `{Host} (v : value) (proto : member) (k : string)
  : member :=
  match builtin_of v with
  | Some b => if String.eqb k "__proto__" then proto else builtin_member b k
  | None => Data VUndefined
  end.

(** [o[k]]: an own property; or else what the prototype chain holds.
    The chain is that of the kind of the object, or, once the prototype
    has been replaced, the new prototype and its chain.  The program
    reads [this.attributes], which is never null or undefined; those
    arms are here for totality. *)
Definition read `{Host} (o : object) (k : string) : member :=
  match own_property (base o) k with
  | Some v => Data v
  | None =>
      match prototype o with
      | None => inherited (base o) (prototype_of (base o)) k
      | Some p =>
          match own_property p k with
          | Some v => Data v
          | None => inherited p (Data p) k
          end
      end
  end.

(** Whether an assignment to [__proto__] on the object finds the
    accessor of [Object.prototype]: not when the prototype has been set
    to null, and not when the new prototype has a property of that name
    of its own, which is found first. *)
Definition accessor_reachable (o : object) : bool :=
  match prototype o with
  | None => true
  | Some p =>
      match own_property p "__proto__" with
      | Some _ => false
      | None => match builtin_of p with Some _ => true | None => false end
      end
  end.

(** [o[k] = v] on an object literal.  An own property is replaced.
    Otherwise the prototype chain decides: through the accessor
    [__proto__] the assignment makes [v] the prototype of [o] when [v]
    is an object or null, and does nothing when [v] is a primitive; for
    every other name, inherited or not, it adds an own property (what
    the chain holds is writable data).  The program assigns properties
    only on the object literal it has just created; other receivers are
    left as they are. *)
Definition assign (o : object) (k : string) (v : value) : object :=
  match base o with
  | VObj props =>
      match assoc k props with
      | Some _ =>
          {| base := VObj (set_assoc k v props); prototype := prototype o |}
      | None =>
          if String.eqb k "__proto__" && accessor_reachable o then
            if typeof_object v
            then {| base := base o; prototype := Some v |}
            else o
          else
            {| base := VObj (set_assoc k v props); prototype := prototype o |}
      end
  | _ => o
  end.

(** [this._escapedAttributes[attr]]: an own entry, or else what the
    plain object inherits from [Object.prototype]. *)
Definition lookup_escaped (esc : gmap string string) (attr : string)
  : member :=
  match esc !! attr with
  | Some html => Data (VStr html)
  | None =>
      if String.eqb attr "__proto__" then BuiltinPrototype ObjectPrototype
      else if Object_prototype_has attr then BuiltinMethod ObjectPrototype attr
      else Data VUndefined
  end.

(** [val.toString()]: the method is looked up like any property and
    then called.  A property named [toString] that a value of the data
    has of its own is data, not a function, and calling it throws;
    otherwise the method is the built-in one of the kind of the value.
    A function or a prototype object of the runtime has a built-in
    conversion that returns. *)
Definition call_toString `{Host} (val : member) : error + string :=
  match val with
  | Data v =>
      match own_property v "toString" with
      | Some _ => inl (TypeError "val.toString is not a function")
      | None => toString v
      end
  | _ => inr (builtin_toString val)
  end.

(** ** Synchronous code: state and exceptions *)

Inductive result (A : Type) : Type :=
| Normal (a : A)
| Throw (e : error).
Arguments Normal {A} & a.
Arguments Throw {A} e.

(* An outcome and a pair are read against the type that is expected of
   them, so that a value stands where a [member] is expected. *)
Arguments pair {A B} & a b.

Definition M (A : Type) : Type := World -> result A * World.

Definition ret {A : Type} (a : A) : M A := fun w => (Normal a, w).

Definition throw {A : Type} (e : error) : M A := fun w => (Throw e, w).

Definition bind {A B : Type} (m : M A) (k : A -> M B) : M B :=
  fun w =>
    match m w with
    | (Normal a, w') => k a w'
    | (Throw e, w') => (Throw e, w')
    end.

Notation "'let*' x ':=' m 'in' k" := (bind m (fun x => k))
  (at level 10, x name, m at level 100, k at level 200).

Definition spy (c : call) : M unit :=
  fun w => (Normal tt, set_calls (calls w ++ [c]) w).

Definition lift {A : Type} (r : error + A) : M A :=
  match r with
  | inl e => throw e
  | inr a => ret a
  end.

Fixpoint for_each {A : Type} (l : list A) (body : A -> M unit) : M unit :=
  match l with
  | [] => ret tt
  | x :: l' => let* _ := body x in for_each l' body
  end.

(** [for (var attr in o) body]. *)
Definition for_in (o : value) (body : string -> M unit) : M unit :=
  for_each (own_keys o) body.

(** Reading and writing the fields of the object at a location. *)
Definition deref (this : loc) : M ParseConfig :=
  fun w =>
    match heap w !! this with
    | Some o => (Normal o, w)
    | None => (Throw (TypeError "not a ParseConfig"), w)
    end.

Definition assign_attributes (this : loc) (a : object) : M unit :=
  let* o := deref this in
  fun w =>
    (Normal tt,
     set_heap (<[this := {| attributes := a;
                            _escapedAttributes := _escapedAttributes o |}]>
                 (heap w)) w).

(** [this._escapedAttributes[attr] = html].  [escape] gets here only for
    a name under which the lookup found nothing truthy, that is, a name
    that [Object.prototype] does not define: the assignment creates or
    replaces an own entry. *)
Definition assign_escapedAttribute (this : loc) (attr html : string) : M unit :=
  let* o := deref this in
  fun w =>
    (Normal tt,
     set_heap (<[this := {| attributes := attributes o;
                            _escapedAttributes :=
                              <[attr := html]> (_escapedAttributes o) |}]>
                 (heap w)) w).

Definition read_currentConfig : M (option loc) :=
  fun w => (Normal (currentConfig w), w).

Definition assign_currentConfig (c : option loc) : M unit :=
  fun w => (Normal tt, set_currentConfig c w).

(** [new ParseConfig()]: a fresh object with both fields empty. *)
Definition new_ParseConfig : M loc :=
  fun w =>
    (Normal (length (heap w)),
     set_heap (heap w ++ [{| attributes := VObj [];
                             _escapedAttributes := ∅ |}]) w).

(** ** Promises *)

(** A promise is settled, or it is a pending backend operation with the
    callback given to [then].  The callback runs later, on the world as it
    is then; if the operation fails the callback is skipped and the
    failure is the rejection. *)
Inductive Promise (A : Type) : Type :=
| Settled (r : error + A)
| RESTRequest (method path : string) (params options : value)
    (k : value -> M (Promise A))
| StorageGetItemAsync (path : string) (k : option string -> M (Promise A))
| StorageSetItemAsync (path val : string) (k : unit -> M (Promise A)).
Arguments Settled {A} r.
Arguments RESTRequest {A} method path params options k.
Arguments StorageGetItemAsync {A} path k.
Arguments StorageSetItemAsync {A} path val k.

Definition Resolved {A : Type} (a : A) : Promise A := Settled (inr a).
Definition Rejected {A : Type} (e : error) : Promise A := Settled (inl e).

(** Running a promise to settlement: the backend answers, the callback
    runs; a callback that throws rejects the promise. *)
Fixpoint settle `{Host} {A : Type} (p : Promise A) (w : World)
  : (error + A) * World :=
  match p with
  | Settled r => (r, w)
  | RESTRequest method path params options k =>
      match REST_response method path params options with
      | inl e => (inl e, w)
      | inr response =>
          match k response w with
          | (Normal p', w') => settle p' w'
          | (Throw e, w') => (inl e, w')
          end
      end
  | StorageGetItemAsync path k =>
      match Storage_read_error path with
      | Some e => (inl e, w)
      | None =>
          match k (storage w !! path) w with
          | (Normal p', w') => settle p' w'
          | (Throw e, w') => (inl e, w')
          end
      end
  | StorageSetItemAsync path val k =>
      match Storage_write_error path val with
      | Some e => (inl e, w)
      | None =>
          match k tt (set_storage (<[path := val]> (storage w)) w) with
          | (Normal p', w') => settle p' w'
          | (Throw e, w') => (inl e, w')
          end
      end
  end.

(** ** The program *)

Definition CURRENT_CONFIG_KEY : string := "currentConfig".

(** [function decodePayload(data)]: the decoded object, [undefined] when
    the text parses to something that is not an object, [null] when
    [JSON.parse] or [decode] throws. *)
Definition decodePayload `{Host} (data : string) : value :=
  match JSON_parse data with
  | None => VNull
  | Some json =>
      if truthy json && typeof_object json then
        match decode json with
        | inr v => v
        | inl _ => VNull
        end
      else VUndefined
  end.

(** What [current()] returns: a config, or a promise of one. *)
Inductive CurrentResult : Type :=
| Sync (config : loc)
| Async (p : Promise loc).

Module Storage.
Definition generatePath `{Host} (key : string) : M string :=
  let* _ := spy (Call_Storage_generatePath key) in
  ret (Storage_generatePath key).

Definition async `{Host} : M bool :=
  let* _ := spy Call_Storage_async in
  ret Storage_async.

Definition getItem (path : string) : M (option string) :=
  let* _ := spy (Call_Storage_getItem path) in
  fun w => (Normal (storage w !! path), w).

Definition getItemAsync {A : Type} (path : string)
    (k : option string -> M (Promise A)) : M (Promise A) :=
  let* _ := spy (Call_Storage_getItemAsync path) in
  ret (StorageGetItemAsync path k).

Definition setItemAsync {A : Type} (path val : string)
    (k : unit -> M (Promise A)) : M (Promise A) :=
  let* _ := spy (Call_Storage_setItemAsync path val) in
  ret (StorageSetItemAsync path val k).
End Storage.

Module RESTController.
Definition request {A : Type} (method path : string) (params options : value)
    (k : value -> M (Promise A)) : M (Promise A) :=
  let* _ := spy (Call_REST_request method path params options) in
  ret (RESTRequest method path params options k).
End RESTController.

Module DefaultController.
Definition current `{Host} : M CurrentResult :=
  let* cached := read_currentConfig in
  match cached with
  | Some c => ret (Sync c)
  | None =>
      let* config := new_ParseConfig in
      let* storagePath := Storage.generatePath CURRENT_CONFIG_KEY in
      let* is_async := Storage.async in
      if negb is_async then
        let* configData := Storage.getItem storagePath in
        let* _ :=
          if truthy_string configData then
            let attributes := decodePayload (default EmptyString configData) in
            if truthy attributes then
              let* _ := assign_attributes config attributes in
              assign_currentConfig (Some config)
            else ret tt
          else ret tt in
        ret (Sync config)
      else
        let* p :=
          Storage.getItemAsync storagePath (fun configData =>
            let* _ :=
              if truthy_string configData then
                let attributes := decodePayload (default EmptyString configData) in
                if truthy attributes then
                  let* _ := assign_attributes config attributes in
                  assign_currentConfig (Some config)
                else ret tt
              else ret tt in
            ret (Resolved config)) in
        ret (Async p)
  end.

Definition get `{Host} : M (Promise loc) :=
  RESTController.request "GET" "config" (VObj []) (VObj []) (fun response =>
    if negb (truthy response) || negb (truthy (get_prop response "params"))
    then
      let error := ParseError INVALID_JSON "Config JSON response invalid." in
      ret (Rejected error)
    else
      let params := get_prop response "params" in
      let* config := new_ParseConfig in
      let* _ := assign_attributes config (VObj []) in
      let* _ :=
        for_in params (fun attr =>
          let* v := lift (decode (get_prop params attr)) in
          let* o := deref config in
          assign_attributes config (assign (attributes o) attr v)) in
      let* _ := assign_currentConfig (Some config) in
      let* storagePath := Storage.generatePath CURRENT_CONFIG_KEY in
      Storage.setItemAsync storagePath (JSON_stringify params) (fun _ =>
        ret (Resolved config))).
End DefaultController.

Module ParseConfig.
(** [get(attr)] *)
Definition get `{Host} (this : loc) (attr : string) : M member :=
  let* o := deref this in
  ret (read (attributes o) attr).

(** [escape(attr)].  What [if (html)] finds truthy is returned as it
    is, a string of the cache or a member inherited from
    [Object.prototype].  [val.toString()] is evaluated before [escape]
    is called, so when it throws the escaping function is not called and
    nothing is stored. *)
Definition escape `{Host} (this : loc) (attr : string) : M member :=
  let* o := deref this in
  let html := lookup_escaped (_escapedAttributes o) attr in
  if truthy_member html then ret html
  else
    let val := read (attributes o) attr in
    let* escaped :=
      if not_nullish_member val then
        let* str := lift (call_toString val) in
        let* _ := spy (Call_escape str) in
        ret (escape str)
      else ret EmptyString in
    let* _ := assign_escapedAttribute this attr escaped in
    ret (Data (VStr escaped)).

(** [static current()] and [static get()], through the controller that
    the module registers with [CoreManager.setConfigController]. *)
Definition current `{Host} : M CurrentResult := DefaultController.current.
Definition static_get `{Host} : M (Promise loc) := DefaultController.get.
End ParseConfig.

(** ** A reference host

    A concrete host on which the program can be run: a JSON reader and
    writer for the value model above, the string conversions and the
    built-in members of the language standard, the HTML escaping of the
    SDK, a [decode] that leaves plain data as it is.  The theorems below
    hold of every host; this one supplies the concrete runs.  The reader
    keeps the members of an object in the order of the text (an engine
    lists the names that are array indices first), and the texts read
    here have no such names; like [JSON.parse] it creates a member named
    [__proto__] as an own property. *)
Module Reference.

Definition is_ws (c : ascii) : bool :=
  (Ascii.eqb c " " || Ascii.eqb c "009" || Ascii.eqb c "010"
   || Ascii.eqb c "013")%char.

Fixpoint skip_ws (s : string) : string :=
  match s with
  | String c s' => if is_ws c then skip_ws s' else s
  | EmptyString => s
  end.

Definition digit_of (c : ascii) : option Z :=
  let n := nat_of_ascii c in
  if (48 <=? n)%nat && (n <=? 57)%nat then Some (Z.of_nat (n - 48)) else None.

(** The digits at the head of [s], accumulated onto [acc]. *)
Fixpoint read_digits (acc : Z) (s : string) : Z * string :=
  match s with
  | String c s' =>
      match digit_of c with
      | Some d => read_digits (10 * acc + d) s'
      | None => (acc, s)
      end
  | EmptyString => (acc, s)
  end.

(** An integer literal without its sign: [0], or a nonzero digit and
    more digits.  A fraction or an exponent has no counterpart in the
    value model and is refused. *)
Definition read_natural (s : string) : option (Z * string) :=
  match s with
  | String c s' =>
      match digit_of c with
      | Some d =>
          let '(n, rest) :=
            if (d =? 0)%Z then (0%Z, s') else read_digits d s' in
          match rest with
          | String c' _ =>
              if (Ascii.eqb c' "." || Ascii.eqb c' "e" || Ascii.eqb c' "E")%char
              then None else Some (n, rest)
          | EmptyString => Some (n, rest)
          end
      | None => None
      end
  | EmptyString => None
  end.

(** The body of a string literal, after its opening quote. *)
Fixpoint read_string (s : string) : option (string * string) :=
  match s with
  | EmptyString => None
  | String c s' =>
      if Ascii.eqb c dquote then Some (EmptyString, s')
      else if Ascii.eqb c "\"%char then
        match s' with
        | String e s'' =>
            let unescaped :=
              if Ascii.eqb e dquote then Some dquote
              else if Ascii.eqb e "\"%char then Some "\"%char
              else if Ascii.eqb e "/"%char then Some "/"%char
              else if Ascii.eqb e "n"%char then Some "010"%char
              else if Ascii.eqb e "t"%char then Some "009"%char
              else if Ascii.eqb e "r"%char then Some "013"%char
              else if Ascii.eqb e "b"%char then Some "008"%char
              else if Ascii.eqb e "f"%char then Some "012"%char
              else None in
            match unescaped, read_string s'' with
            | Some c', Some (body, rest) => Some (String c' body, rest)
            | _, _ => None
            end
        | EmptyString => None
        end
      else if (nat_of_ascii c <? 32)%nat then None
      else
        match read_string s' with
        | Some (body, rest) => Some (String c body, rest)
        | None => None
        end
  end.

Definition read_keyword (kw : string) (v : value) (s : string)
  : option (value * string) :=
  if String.prefix kw s
  then Some (v, substring (String.length kw)
                          (String.length s - String.length kw) s)
  else None.

Fixpoint read_value (fuel : nat) (s : string) : option (value * string) :=
  match fuel with
  | O => None
  | S fuel' =>
      match skip_ws s with
      | EmptyString => None
      | String c rest as s0 =>
          if Ascii.eqb c "n"%char then read_keyword "null" VNull s0
          else if Ascii.eqb c "t"%char then read_keyword "true" (VBool true) s0
          else if Ascii.eqb c "f"%char then read_keyword "false" (VBool false) s0
          else if Ascii.eqb c dquote then
            match read_string rest with
            | Some (str, rest') => Some (VStr str, rest')
            | None => None
            end
          else if Ascii.eqb c "-"%char then
            match read_natural rest with
            | Some (n, rest') => Some (VNum (- n), rest')
            | None => None
            end
          else if Ascii.eqb c "["%char then
            match skip_ws rest with
            | String "]"%char rest' => Some (VArr [], rest')
            | _ =>
                match read_elements fuel' rest with
                | Some (elems, rest') => Some (VArr elems, rest')
                | None => None
                end
            end
          else if Ascii.eqb c "{"%char then
            match skip_ws rest with
            | String "}"%char rest' => Some (VObj [], rest')
            | _ =>
                match read_members fuel' [] rest with
                | Some (props, rest') => Some (VObj props, rest')
                | None => None
                end
            end
          else
            match read_natural s0 with
            | Some (n, rest') => Some (VNum n, rest')
            | None => None
            end
      end
  end
with read_elements (fuel : nat) (s : string)
  : option (list value * string) :=
  match fuel with
  | O => None
  | S fuel' =>
      match read_value fuel' s with
      | Some (v, rest) =>
          match skip_ws rest with
          | String ","%char rest' =>
              match read_elements fuel' rest' with
              | Some (vs, rest'') => Some (v :: vs, rest'')
              | None => None
              end
          | String "]"%char rest' => Some ([v], rest')
          | _ => None
          end
      | None => None
      end
  end
with read_members (fuel : nat) (acc : list (string * value)) (s : string)
  : option (list (string * value) * string) :=
  match fuel with
  | O => None
  | S fuel' =>
      match skip_ws s with
      | String c rest =>
          if Ascii.eqb c dquote then
            match read_string rest with
            | Some (key, rest1) =>
                match skip_ws rest1 with
                | String ":"%char rest2 =>
                    match read_value fuel' rest2 with
                    | Some (v, rest3) =>
                        let acc' := set_assoc key v acc in
                        match skip_ws rest3 with
                        | String ","%char rest4 =>
                            read_members fuel' acc' rest4
                        | String "}"%char rest4 => Some (acc', rest4)
                        | _ => None
                        end
                    | None => None
                    end
                | _ => None
                end
            | None => None
            end
          else None
      | EmptyString => None
      end
  end.

(** [JSON.parse]: one value, with nothing but blanks after it. *)
Definition parse (text : string) : option value :=
  match read_value (2 * String.length text + 2) text with
  | Some (v, rest) =>
      match skip_ws rest with
      | EmptyString => Some v
      | _ => None
      end
  | None => None
  end.

Definition decimal (n : Z) : string := NilZero.string_of_int (Z.to_int n).

Fixpoint quote_body (s : string) : string :=
  match s with
  | EmptyString => String dquote EmptyString
  | String c s' =>
      if Ascii.eqb c dquote then String "\" (String dquote (quote_body s'))
      else if Ascii.eqb c "\"%char then String "\" (String "\" (quote_body s'))
      else if Ascii.eqb c "010"%char then String "\" (String "n" (quote_body s'))
      else if Ascii.eqb c "009"%char then String "\" (String "t" (quote_body s'))
      else if Ascii.eqb c "013"%char then String "\" (String "r" (quote_body s'))
      else String c (quote_body s')
  end.

Definition quote (s : string) : string := String dquote (quote_body s).

Definition join (sep : string) (l : list string) : string :=
  match l with
  | [] => EmptyString
  | x :: l' => fold_left (fun acc y => acc ++ sep ++ y) l' x
  end.

(** [JSON.stringify] of a value that is not [undefined]: an undefined
    array element is written as null, an undefined property is left
    out. *)
Fixpoint stringify (v : value) : string :=
  match v with
  | VUndefined | VNull => "null"
  | VBool true => "true"
  | VBool false => "false"
  | VNum n => decimal n
  | VStr s => quote s
  | VArr elems =>
      "[" ++ join "," ((fix go (l : list value) : list string :=
                          match l with
                          | [] => []
                          | x :: l' => stringify x :: go l'
                          end) elems) ++ "]"
  | VObj props =>
      "{" ++ join "," ((fix go (l : list (string * value)) : list string :=
                          match l with
                          | [] => []
                          | (_, VUndefined) :: l' => go l'
                          | (k, x) :: l' =>
                              (quote k ++ ":" ++ stringify x) :: go l'
                          end) props) ++ "}"
  end.

Definition cannot_convert : error :=
  TypeError "Cannot convert object to primitive value".

(** The built-in [toString] of the kind of a value.  As an element of an
    array an object is converted through its [toString] and [valueOf]:
    with an own property [toString], which is data, the conversion finds
    nothing that returns a primitive and throws. *)
Fixpoint to_string (v : value) : error + string :=
  match v with
  | VUndefined => inr "undefined"
  | VNull => inr "null"
  | VBool true => inr "true"
  | VBool false => inr "false"
  | VNum n => inr (decimal n)
  | VStr s => inr s
  | VArr elems =>
      match (fix go (l : list value) : error + list string :=
               match l with
               | [] => inr []
               | x :: l' =>
                   match (if not_nullish x then to_string x
                          else inr EmptyString), go l' with
                   | inl e, _ => inl e
                   | inr _, inl e => inl e
                   | inr s, inr ss => inr (s :: ss)
                   end
               end) elems with
      | inl e => inl e
      | inr ss => inr (join "," ss)
      end
  | VObj props =>
      match assoc "toString" props with
      | Some _ => inl cannot_convert
      | None => inr "[object Object]"
      end
  end.

(** The string-named members of the other built-in prototypes, as the
    2015 edition of the language standard lists them. *)
Definition standard_members (b : builtin) : list string :=
  match b with
  | ObjectPrototype => []
  | ArrayPrototype =>
      ["concat"; "constructor"; "copyWithin"; "entries"; "every"; "fill";
       "filter"; "find"; "findIndex"; "forEach"; "indexOf"; "join"; "keys";
       "lastIndexOf"; "map"; "pop"; "push"; "reduce"; "reduceRight";
       "reverse"; "shift"; "slice"; "some"; "sort"; "splice";
       "toLocaleString"; "toString"; "unshift"; "values"]
  | StringPrototype =>
      ["charAt"; "charCodeAt"; "codePointAt"; "concat"; "constructor";
       "endsWith"; "includes"; "indexOf"; "lastIndexOf"; "localeCompare";
       "match"; "normalize"; "repeat"; "replace"; "search"; "slice";
       "split"; "startsWith"; "substr"; "substring"; "toLocaleLowerCase";
       "toLocaleUpperCase"; "toLowerCase"; "toString"; "toUpperCase";
       "trim"; "valueOf"]
  | NumberPrototype =>
      ["constructor"; "toExponential"; "toFixed"; "toLocaleString";
       "toPrecision"; "toString"; "valueOf"]
  | BooleanPrototype => ["constructor"; "toString"; "valueOf"]
  end.

Definition standard_has (b : builtin) (k : string) : bool :=
  existsb (String.eqb k) (standard_members b).

Definition constructor_name (b : builtin) : string :=
  match b with
  | ObjectPrototype => "Object"
  | ArrayPrototype => "Array"
  | StringPrototype => "String"
  | NumberPrototype => "Number"
  | BooleanPrototype => "Boolean"
  end.

(** The string conversion of a built-in function and of a built-in
    prototype object. *)
Definition native_to_string (m : member) : string :=
  match m with
  | BuiltinMethod b name =>
      "function "
        ++ (if String.eqb name "constructor" then constructor_name b else name)
        ++ "() { [native code] }"
  | BuiltinPrototype ObjectPrototype => "[object Object]"
  | BuiltinPrototype NumberPrototype => "0"
  | BuiltinPrototype BooleanPrototype => "false"
  | _ => EmptyString
  end.

(** Modelled from the spec: the HTML-escaping utility ([escape.js]) is a
    collaborator outside this file; it replaces the characters that are
    special in HTML by their entities. *)
Fixpoint html_escape (s : string) : string :=
  match s with
  | EmptyString => EmptyString
  | String c s' =>
      (if Ascii.eqb c "&"%char then "&amp;"
       else if Ascii.eqb c "<"%char then "&lt;"
       else if Ascii.eqb c ">"%char then "&gt;"
       else if Ascii.eqb c "/"%char then "&#x2F;"
       else if Ascii.eqb c "'"%char then "&#x27;"
       else if Ascii.eqb c dquote then "&quot;"
       else String c EmptyString) ++ html_escape s'
  end.

(** Modelled from the spec: the decode utility ([decode.js]) is a
    collaborator outside this file; it turns raw JSON-compatible values
    into in-memory values, and plain data is already one. *)
Definition plain_decode (v : value) : error + value := inr v.

Definition generatePath (key : string) : string := "Parse/app/" ++ key.

(** The host with the given kind of storage, whose REST backend answers
    [response] and whose storage refuses a write with [write_error]. *)
Definition host (async : bool) (response : error + value)
    (write_error : option error) : Host :=
  {| decode := plain_decode;
     escape := html_escape;
     JSON_parse := parse;
     JSON_stringify := stringify;
     toString := to_string;
     prototype_has := standard_has;
     builtin_toString := native_to_string;
     Storage_async := async;
     Storage_generatePath := generatePath;
     REST_response := fun _ _ _ _ => response;
     Storage_read_error := fun _ => None;
     Storage_write_error := fun _ _ => write_error |}.

End Reference.

(** ** Notions used in the statements *)

(** In JavaScript the objects are the values that are not primitive:
    arrays are objects, null is not. *)
Definition is_object (v : value) : bool :=
  match v with
  | VArr _ | VObj _ => true
  | _ => false
  end.

(** A value that is not the kind of thing a JSON object text denotes:
    null, a primitive or an array. *)
Definition not_JSON_object (v : value) : bool :=
  match v with
  | VObj _ => false
  | _ => true
  end.

(** Whether the chain that starts at the built-in prototype [b] answers
    to the name [k]. *)
Definition builtin_has `{Host} (b : builtin) (k : string) : bool :=
  inherited_name k
  || match b with
     | ObjectPrototype => false
     | _ => prototype_has b k
     end.

(** Whether the object inherits something under the name [k]: from the
    prototype of its kind, or from the prototype it has been given. *)
Definition inherits `{Host} (o : object) (k : string) : bool :=
  match prototype o with
  | None =>
      match builtin_of (base o) with
      | Some b => builtin_has b k
      | None => false
      end
  | Some p =>
      has_own_property p k
      || match builtin_of p with
         | Some b => builtin_has b k
         | None => false
         end
  end.

(** What [escape(attr)] computes for an attribute whose read yields [m]:
    the string, or the error that [toString] throws. *)
Definition escaped_form `{Host} (m : member) : error + string :=
  if not_nullish_member m then
    match call_toString m with
    | inr str => inr (escape str)
    | inl e => inl e
    end
  else inr EmptyString.

(** The escaped-value cache is derived state: an entry, when there is
    one, is the escaped form of the attribute. *)
Definition escaped_consistent `{Host} (o : ParseConfig) : Prop :=
  forall attr html,
    _escapedAttributes o !! attr = Some html ->
    escaped_form (read (attributes o) attr) = inr html.

Definition World_consistent `{Host} (w : World) : Prop :=
  forall l o, heap w !! l = Some o -> escaped_consistent o.

(** The object [new ParseConfig()] creates. *)
Definition empty_ParseConfig : ParseConfig :=
  {| attributes := VObj []; _escapedAttributes := ∅ |}.

(** How often the spy saw [escape] being called. *)
Definition is_Call_escape (c : call) : bool :=
  match c with
  | Call_escape _ => true
  | _ => false
  end.

Definition escape_count (w : World) : nat :=
  length (filter (fun c => is_Call_escape c = true) (calls w)).

(** The paths the spy saw read from storage, by either kind of read. *)
Definition storage_reads (l : list call) : list string :=
  omap (fun c => match c with
                 | Call_Storage_getItem path
                 | Call_Storage_getItemAsync path => Some path
                 | _ => None
                 end) l.

(** A caller that waits for [current()]: the config at once from a
    synchronous backend, the settlement of the promise otherwise. *)
Definition await_current `{Host} (w : World) : (error + loc) * World :=
  match DefaultController.current w with
  | (Normal (Sync config), w') => (inr config, w')
  | (Normal (Async p), w') => settle p w'
  | (Throw e, w') => (inl e, w')
  end.

(** A caller that waits for [get()]. *)
Definition await_get `{Host} (w : World) : (error + loc) * World :=
  match DefaultController.get w with
  | (Normal p, w') => settle p w'
  | (Throw e, w') => (inl e, w')
  end.

(** A stored snapshot from which no config can be built: there is none,
    or it is not JSON, or it is the JSON of a value that is not an object,
    or decoding it throws. *)
Definition unusable_snapshot `{Host} (data : option string) : Prop :=
  data = None
  \/ (exists s, data = Some s /\ JSON_parse s = None)
  \/ (exists s v, data = Some s /\ JSON_parse s = Some v /\ is_object v = false)
  \/ (exists s v e, data = Some s /\ JSON_parse s = Some v /\ decode v = inl e).

(** The text [{"a":1}]. *)
Definition snapshot_a1 : string :=
  "{" ++ String dquote "a" ++ String dquote ":1}".

(** The world after [escape(attr)] has computed the string [html] for
    the attribute of the object [o] at [this] and stored it: the spy has
    seen the escaping function called unless the attribute is null or
    undefined. *)
Definition escape_update `{Host} (this : loc) (o : ParseConfig)
    (attr html : string) (w : World) : World :=
  let val := read (attributes o) attr in
  let w1 :=
    match call_toString val with
    | inr str =>
        if not_nullish_member val
        then set_calls (calls w ++ [Call_escape str]) w else w
    | inl _ => w
    end in
  set_heap (<[this := {| attributes := attributes o;
                         _escapedAttributes :=
                           <[attr := html]> (_escapedAttributes o) |}]>
              (heap w)) w1.



(** The claim that [get(attr)] returns undefined for every name that is
    not a property of the attributes object. *)
Definition absent_reads_undefined `{Host} (w : World) (this : loc)
    (attr : string) : Prop :=
  forall o,
    heap w !! this = Some o ->
    has_own_property (base (attributes o)) attr = false ->
    ParseConfig.get this attr w = (Normal (Data VUndefined), w).

(** The claim that a snapshot which is the JSON of anything but an
    object makes [current()] return an empty config. *)
Definition non_object_snapshot_gives_empty `{Host} (w : World) : Prop :=
  forall s v,
    storage w !! Storage_generatePath CURRENT_CONFIG_KEY = Some s ->
    JSON_parse s = Some v ->
    not_JSON_object v = true ->
    exists config w',
      DefaultController.current w = (Normal (Sync config), w')
      /\ heap w' !! config = Some empty_ParseConfig.

(** The claim that the config [get()] resolves with has every field of
    the params object [props] as an attribute, decoded. *)
Definition get_keeps_every_field `{Host} (w : World)
    (props : list (string * value)) : Prop :=
  exists config w2,
    await_get w = (inr config, w2)
    /\ forall k v, assoc k props = Some v ->
         exists d,
           decode v = inr d
           /\ ParseConfig.get config k w2 = (Normal (Data d), w2).

(** The world after a [current()] that found the cache empty and no
    usable snapshot: a new empty config exists, the cache is still empty,
    and the spy has seen the storage being read. *)
Definition current_miss `{Host} (w : World) : World :=
  let path := Storage_generatePath CURRENT_CONFIG_KEY in
  set_calls
    (calls w ++ [Call_Storage_generatePath CURRENT_CONFIG_KEY;
                 Call_Storage_async;
                 if Storage_async then Call_Storage_getItemAsync path
                 else Call_Storage_getItem path])
    (set_heap (heap w ++ [empty_ParseConfig]) w).

(** The world after a [current()] that found the cache empty and built a
    config from the snapshot, whose decoded content is [d]. *)
Definition current_adopt `{Host} (d : value) (w : World) : World :=
  let path := Storage_generatePath CURRENT_CONFIG_KEY in
  set_currentConfig (Some (length (heap w)))
    (set_calls
       (calls w ++ [Call_Storage_generatePath CURRENT_CONFIG_KEY;
                    Call_Storage_async;
                    if Storage_async then Call_Storage_getItemAsync path
                    else Call_Storage_getItem path])
       (set_heap (heap w ++ [{| attributes := d; _escapedAttributes := ∅ |}])
          w)).

(** The world after [n] calls of [current()], each one waited for. *)
Fixpoint current_times `{Host} (n : nat) (w : World) : World :=
  match n with
  | O => w
  | S n' => snd (await_current (current_times n' w))
  end.

(** The world once [get()] has issued its request. *)
Definition get_requested (w : World) : World :=
  set_calls (calls w ++ [Call_REST_request "GET" "config" (VObj []) (VObj [])]) w.

(** The loop of [get()] as a function of the attributes object it
    fills: how the loop ends, and the object as it is then. *)
Fixpoint fill `{Host} (params : value) (keys : list string) (a : object)
  : result unit * object :=
  match keys with
  | [] => (Normal tt, a)
  | k :: keys' =>
      match decode (get_prop params k) with
      | inl e => (Throw e, a)
      | inr d => fill params keys' (assign a k d)
      end
  end.

(** The world once the callback of [get()] has built the config with the
    attributes object [a], made it the cached one and asked the storage
    to write [json]. *)
Definition get_fetched `{Host} (a : object) (json : string)
    (w : World) : World :=
  set_currentConfig (Some (length (heap w)))
    (set_calls
       (calls w ++ [Call_REST_request "GET" "config" (VObj []) (VObj []);
                    Call_Storage_generatePath CURRENT_CONFIG_KEY;
                    Call_Storage_setItemAsync
                      (Storage_generatePath CURRENT_CONFIG_KEY) json])
       (set_heap (heap w ++ [{| attributes := a;
                                _escapedAttributes := ∅ |}]) w)).

(** A heap grows by at most one object at a time, and a new object has
    an empty cache of escaped values. *)
Definition heap_extends (h h' : list ParseConfig) : Prop :=
  h' = h
  \/ exists a : object,
       h' = (h ++ [{| attributes := a; _escapedAttributes := ∅ |}])%list.

(** How the backends answer at one moment: the REST server, the reads
    and the writes of the storage. *)
Record Backend : Type := {
  answers : string -> string -> value -> value -> error + value;
  read_errors : string -> option error;
  write_errors : string -> string -> option error;
}.

(** The same runtime and utilities over backends that answer as [b]
    says. *)
Definition answering (b : Backend) (H : Host) : Host :=
  {| decode := decode;
     escape := escape;
     JSON_parse := JSON_parse;
     JSON_stringify := JSON_stringify;
     toString := toString;
     prototype_has := prototype_has;
     builtin_toString := builtin_toString;
     Storage_async := Storage_async;
     Storage_generatePath := Storage_generatePath;
     REST_response := answers b;
     Storage_read_error := read_errors b;
     Storage_write_error := write_errors b |}.

(** The worlds a program can bring about from a freshly loaded module by
    calling the four operations and waiting for their results.  The
    backends may answer each call differently: a call of [current()] or
    [get()] runs over whatever backend there is at that moment. *)
Inductive reachable `{Host} : World -> Prop :=
| reachable_initial (s : gmap string string) :
    reachable (initial_World s)
| reachable_get (w w' : World) (this : loc) (attr : string) (r : result member) :
    reachable w -> ParseConfig.get this attr w = (r, w') -> reachable w'
| reachable_escape (w w' : World) (this : loc) (attr : string)
    (r : result member) :
    reachable w -> ParseConfig.escape this attr w = (r, w') -> reachable w'
| reachable_current (w w' : World) (b : Backend) (r : error + loc) :
    reachable w ->
    await_current (H := answering b H) w = (r, w') -> reachable w'
| reachable_static_get (w w' : World) (b : Backend) (r : error + loc) :
    reachable w ->
    await_get (H := answering b H) w = (r, w') -> reachable w'.

(** ** Concrete runs on the reference host *)

Module Run.

(** A backend response [{ params: { a: 1, b: "x" } }]. *)
Definition params_ab : list (string * value) :=
  [("a", VNum 1); ("b", VStr "x")].
Definition response_ab : value := VObj [("params", VObj params_ab)].

(** A backend response [{ params: { a: "" } }]. *)
Definition params_blank : list (string * value) := [("a", VStr EmptyString)].
Definition response_blank : value := VObj [("params", VObj params_blank)].


(** What [JSON.parse] makes of the response text
    [{"params":{"__proto__":5}}]: the params object has a property named
    [__proto__] of its own. *)
Definition params_proto : list (string * value) := [("__proto__", VNum 5)].
Definition response_proto : value := VObj [("params", VObj params_proto)].

(** The text [{"__proto__":5}]. *)
Definition json_proto : string :=
  "{" ++ String dquote "__proto__" ++ String dquote ":5}".

(** A backend response [{ params: { constructor: null } }]. *)
Definition params_shadow : list (string * value) := [("constructor", VNull)].
Definition response_shadow : value := VObj [("params", VObj params_shadow)].

(** A backend response without params: [{ result: true }]. *)
Definition response_other : value := VObj [("result", VBool true)].

Definition offline : error + value := inl (Failure "offline").
Definition quota : error := Failure "quota exceeded".

(** A freshly loaded module whose storage holds the snapshot [s]. *)
Definition stored (s : string) : World :=
  initial_World {[ Reference.generatePath CURRENT_CONFIG_KEY := s ]}.

(** The world after a program has fetched [response_blank] with [get()]
    and waited for it. *)
Definition fetched_blank : World :=
  snd (await_get (H := Reference.host false (inr response_blank) None)
         (initial_World ∅)).


(** The same for [response_shadow]. *)
Definition fetched_shadow : World :=
  snd (await_get (H := Reference.host false (inr response_shadow) None)
         (initial_World ∅)).

(** The world after a program has fetched [response_ab]. *)
Definition fetched_ab : World :=
  snd (await_get (H := Reference.host true (inr response_ab) None)
         (initial_World ∅)).

(** The text [{"a":1,"b":"x"}]. *)
Definition json_ab : string :=
  "{" ++ String dquote "a" ++ String dquote ":1,"
      ++ String dquote "b" ++ String dquote ":"
      ++ String dquote "x" ++ String dquote "}".

End Run.

(** ** Notions used in the further properties *)

(** The callback that [get()] gives to [then], taken out of the promise
    it returns. *)
Definition get_callback `{Host} : value -> M (Promise loc) :=
  match DefaultController.get (initial_World ∅) with
  | (Normal (RESTRequest _ _ _ _ k), _) => k
  | _ => fun _ => ret (Rejected (Failure "no request"))
  end.

(** The promise [get()] returns: it is the same whatever the world. *)
Definition get_promise `{Host} : Promise loc :=
  RESTRequest "GET" "config" (VObj []) (VObj []) get_callback.

(** A response that [get()] turns into a config: the backend delivers
    it, it is truthy and so is its [params], and [decode] returns on every
    enumerable property of [params]. *)
Definition fetchable `{Host} (response : value) : Prop :=
  REST_response "GET" "config" (VObj []) (VObj []) = inr response
  /\ truthy response = true
  /\ truthy (get_prop response "params") = true
  /\ forall k, k ∈ own_keys (get_prop response "params") ->
       exists d, decode (get_prop (get_prop response "params") k) = inr d.

(** The world once the callback of [get()], run on the world [u], has
    built the config with the attributes object [a], made it the cached
    one and asked the storage to write [json]. *)
Definition get_built `{Host} (a : object) (json : string)
    (u : World) : World :=
  set_currentConfig (Some (length (heap u)))
    (set_calls
       (calls u ++ [Call_Storage_generatePath CURRENT_CONFIG_KEY;
                    Call_Storage_setItemAsync
                      (Storage_generatePath CURRENT_CONFIG_KEY) json])
       (set_heap (heap u ++ [{| attributes := a;
                                _escapedAttributes := ∅ |}]) u)).

(** The same host over the other kind of storage. *)
Definition with_Storage_async (b : bool) (H : Host) : Host :=
  {| decode := decode;
     escape := escape;
     JSON_parse := JSON_parse;
     JSON_stringify := JSON_stringify;
     toString := toString;
     prototype_has := prototype_has;
     builtin_toString := builtin_toString;
     Storage_async := b;
     Storage_generatePath := Storage_generatePath;
     REST_response := REST_response;
     Storage_read_error := Storage_read_error;
     Storage_write_error := Storage_write_error |}.

(** One call of the public surface, waited for. *)
Inductive api_step `{Host} : World -> World -> Prop :=
| api_get (w w' : World) (this : loc) (attr : string) (r : result member) :
    ParseConfig.get this attr w = (r, w') -> api_step w w'
| api_escape (w w' : World) (this : loc) (attr : string) (r : result member) :
    ParseConfig.escape this attr w = (r, w') -> api_step w w'
| api_current (w w' : World) (r : error + loc) :
    await_current w = (r, w') -> api_step w w'
| api_static_get (w w' : World) (r : error + loc) :
    await_get w = (r, w') -> api_step w w'.

(** What one call may do to the objects and the cache: nothing, or
    create one object, with an empty cache of escaped values, that the
    cache may come to name. *)
Definition allocates (w w' : World) : Prop :=
  (heap w' = heap w /\ currentConfig w' = currentConfig w)
  \/ exists a : object,
       heap w' = (heap w ++ [{| attributes := a; _escapedAttributes := ∅ |}])%list
       /\ (currentConfig w' = currentConfig w
           \/ currentConfig w' = Some (length (heap w))).

(** The cache, when it is populated, names an object that exists. *)
Definition cache_live (w : World) : Prop :=
  forall c, currentConfig w = Some c -> is_Some (heap w !! c).

(** ** Further concrete runs *)

Module Cases.

(** A [decode] that throws on the string ["bad"] and leaves everything
    else as it is. *)
Definition picky_decode (v : value) : error + value :=
  match v with
  | VStr s => if String.eqb s "bad" then inl (Failure "cannot decode") else inr v
  | _ => inr v
  end.

(** The reference host with another [decode]. *)
Definition host_decoding (dec : value -> error + value) (async : bool)
    (response : error + value) : Host :=
  {| decode := dec;
     escape := Reference.html_escape;
     JSON_parse := Reference.parse;
     JSON_stringify := Reference.stringify;
     toString := Reference.to_string;
     prototype_has := Reference.standard_has;
     builtin_toString := Reference.native_to_string;
     Storage_async := async;
     Storage_generatePath := Reference.generatePath;
     REST_response := fun _ _ _ _ => response;
     Storage_read_error := fun _ => None;
     Storage_write_error := fun _ _ => None |}.

(** The reference host over an asynchronous storage whose reads fail. *)
Definition host_unreadable (e : error) : Host :=
  {| decode := Reference.plain_decode;
     escape := Reference.html_escape;
     JSON_parse := Reference.parse;
     JSON_stringify := Reference.stringify;
     toString := Reference.to_string;
     prototype_has := Reference.standard_has;
     builtin_toString := Reference.native_to_string;
     Storage_async := true;
     Storage_generatePath := Reference.generatePath;
     REST_response := fun _ _ _ _ => inl (Failure "offline");
     Storage_read_error := fun _ => Some e;
     Storage_write_error := fun _ _ => None |}.

(** [{ params: { a: 1, b: "bad", c: 3 } }] *)
Definition response_bad : value :=
  VObj [("params", VObj [("a", VNum 1); ("b", VStr "bad"); ("c", VNum 3)])].

(** [{ params: 0 }] and [{ params: [10, 20] }] *)
Definition response_zero : value := VObj [("params", VNum 0)].
Definition response_array : value :=
  VObj [("params", VArr [VNum 10; VNum 20])].

(** [{ params: { t: "<b>" } }] *)
Definition response_html : value := VObj [("params", VObj [("t", VStr "<b>")])].

(** The world after a program has fetched [response_html]. *)
Definition fetched_html : World :=
  snd (await_get (H := Reference.host false (inr response_html) None)
         (initial_World ∅)).

(** [fetched_ab], then [escape("b")] on the config, then another
    [get()]. *)
Definition later : World :=
  snd (await_get (H := Reference.host true (inr Run.response_ab) None)
         (snd (ParseConfig.escape
                 (H := Reference.host true (inr Run.response_ab) None)
                 0 "b" Run.fetched_ab))).

(** The backends at two moments: the server offline, and the server
    answering [{ params: { t: "<b>" } }]. *)
Definition backend_offline : Backend :=
  {| answers := fun _ _ _ _ => inl (Failure "offline");
     read_errors := fun _ => None;
     write_errors := fun _ _ => None |}.

Definition backend_html : Backend :=
  {| answers := fun _ _ _ _ => inr response_html;
     read_errors := fun _ => None;
     write_errors := fun _ _ => None |}.

(** A program over a storage that holds [{"a":1}]: [get()] while the
    server is offline, [current()], [escape("a")] on the config it
    returns, then [get()] once the server answers. *)
Definition runtime : Host :=
  Reference.host false (inl (Failure "never asked")) None.

Definition changing : World :=
  snd (await_get (H := answering backend_html runtime)
         (snd (ParseConfig.escape (H := runtime) 0 "a"
                 (snd (await_current (H := answering backend_offline runtime)
                         (snd (await_get
                                 (H := answering backend_offline runtime)
                                 (Run.stored snapshot_a1)))))))).

(** A freshly loaded module over a storage that other code uses too. *)
Definition shared : World := initial_World {[ "other" := "kept" ]}.

End Cases.


(** * Properties *)

(** ** Values *)

Lemma truthy_object_is_object (v : value) :
  truthy v && typeof_object v = is_object v.
Proof. destruct v; simpl; rewrite ?andb_false_r; reflexivity. Qed.

Lemma get_prop_absent (o : value) (k : string) :
  has_own_property o k = false -> get_prop o k = VUndefined.
Proof.
  unfold has_own_property, get_prop.
  destruct (assoc k (own_enumerable o)); [discriminate|].
  destruct (String.eqb k "length"); [|reflexivity].
  destruct (own_length o); simpl; [discriminate | reflexivity].
Qed.

Lemma own_property_absent (o : value) (k : string) :
  has_own_property o k = false -> own_property o k = None.
Proof.
  unfold has_own_property, own_property.
  destruct (assoc k (own_enumerable o)); [discriminate|].
  destruct (String.eqb k "length"); [|reflexivity].
  destruct (own_length o); simpl; [discriminate | reflexivity].
Qed.

Lemma own_property_obj (props : list (string * value)) (k : string) :
  own_property (VObj props) k = assoc k props.
Proof.
  unfold own_property. simpl. destruct (assoc k props); [reflexivity|].
  by destruct (String.eqb k "length").
Qed.

Lemma has_own_property_obj (props : list (string * value)) (k : string) :
  has_own_property (VObj props) k = bool_decide (is_Some (assoc k props)).
Proof.
  unfold has_own_property. simpl. destruct (assoc k props) as [v|].
  - symmetry. apply bool_decide_eq_true. by exists v.
  - transitivity false; [by destruct (String.eqb k "length")|].
    symmetry. apply bool_decide_eq_false. by intros [? ?].
Qed.

(** ** Property reads *)

Lemma read_own `{Host} (o : object) (k : string) (v : value) :
  own_property (base o) k = Some v -> read o k = Data v.
Proof. intros Hown. unfold read. by rewrite Hown. Qed.

Lemma builtin_member_absent `{Host} (b : builtin) (k : string) :
  builtin_has b k = false -> builtin_member b k = Data VUndefined.
Proof.
  unfold builtin_has, inherited_name, builtin_member.
  intros [[_ Hobj]%orb_false_elim Hb]%orb_false_elim. rewrite Hobj.
  destruct b; try rewrite Hb; reflexivity.
Qed.

Lemma inherited_absent `{Host} (v : value) (proto : member) (k : string) :
  match builtin_of v with
  | Some b => builtin_has b k
  | None => false
  end = false ->
  inherited v proto k = Data VUndefined.
Proof.
  unfold inherited. destruct (builtin_of v) as [b|]; [|reflexivity].
  intros Hb. rewrite builtin_member_absent by exact Hb.
  unfold builtin_has, inherited_name in Hb.
  apply orb_false_elim in Hb as [[Hp _]%orb_false_elim _]. by rewrite Hp.
Qed.

(** A name that is neither an own property nor inherited reads as
    undefined. *)
Lemma read_absent `{Host} (o : object) (k : string) :
  has_own_property (base o) k = false ->
  inherits o k = false ->
  read o k = Data VUndefined.
Proof.
  intros Hown Hinh. unfold read. rewrite (own_property_absent _ _ Hown).
  unfold inherits in Hinh. destruct (prototype o) as [p|].
  - apply orb_false_elim in Hinh as [Hp Hb].
    rewrite (own_property_absent _ _ Hp). by apply inherited_absent.
  - by apply inherited_absent.
Qed.

(** On a plain object the names that [Object.prototype] defines are the
    inherited ones. *)
Lemma inherits_plain_object `{Host} (props : list (string * value))
    (k : string) :
  inherits (VObj props) k = inherited_name k.
Proof. unfold inherits, builtin_has. simpl. apply orb_false_r. Qed.

Lemma lookup_escaped_own (esc : gmap string string) (attr : string) :
  inherited_name attr = false ->
  lookup_escaped esc attr
  = match esc !! attr with
    | Some html => Data (VStr html)
    | None => Data VUndefined
    end.
Proof.
  unfold inherited_name, lookup_escaped.
  intros [-> ->]%orb_false_elim. reflexivity.
Qed.

Lemma lookup_escaped_truthy (esc : gmap string string) (attr : string) :
  inherited_name attr = false ->
  truthy_member (lookup_escaped esc attr) = truthy_string (esc !! attr).
Proof.
  intros Hname. rewrite (lookup_escaped_own _ _ Hname).
  by destruct (esc !! attr).
Qed.

(** Under a name that [Object.prototype] defines, the lookup in the
    escaped-value cache finds something truthy unless an own entry
    shadows it. *)
Lemma lookup_escaped_inherited (attr : string) :
  inherited_name attr = true ->
  truthy_member (lookup_escaped ∅ attr) = true
  /\ lookup_escaped ∅ attr <> Data VUndefined.
Proof.
  unfold inherited_name, lookup_escaped. rewrite lookup_empty.
  destruct (String.eqb attr "__proto__"); [done|]. simpl.
  intros ->. done.
Qed.

(** ** The instance accessors *)

Ltac run :=
  unfold ParseConfig.get, ParseConfig.escape, assign_escapedAttribute,
    assign_attributes, assign_currentConfig, read_currentConfig, deref,
    new_ParseConfig, spy, lift, throw, bind, ret in *; simpl in *.

(** C9, as the code has it: reading an attribute that the attributes
    object neither has nor inherits yields undefined and leaves the
    world, the instance included, as it was. *)
Theorem get_absent_attribute `{Host} (w : World) (this : loc) (o : ParseConfig)
    (attr : string) :
  heap w !! this = Some o ->
  has_own_property (base (attributes o)) attr = false ->
  inherits (attributes o) attr = false ->
  ParseConfig.get this attr w = (Normal (Data VUndefined), w).
Proof.
  intros Ho Habs Hinh. run. rewrite Ho. by rewrite read_absent.
Qed.

Lemma escape_hit `{Host} (w : World) (this : loc) (o : ParseConfig)
    (attr : string) :
  heap w !! this = Some o ->
  truthy_member (lookup_escaped (_escapedAttributes o) attr) = true ->
  ParseConfig.escape this attr w
  = (Normal (lookup_escaped (_escapedAttributes o) attr), w).
Proof. intros Ho Hc. run. rewrite Ho, Hc. reflexivity. Qed.

Lemma escape_miss `{Host} (w : World) (this : loc) (o : ParseConfig)
    (attr html : string) :
  heap w !! this = Some o ->
  truthy_member (lookup_escaped (_escapedAttributes o) attr) = false ->
  escaped_form (read (attributes o) attr) = inr html ->
  ParseConfig.escape this attr w
  = (Normal (Data (VStr html)), escape_update this o attr html w).
Proof.
  intros Ho Hc Hform. unfold escape_update, escaped_form in *.
  run. rewrite Ho, Hc.
  destruct (not_nullish_member (read (attributes o) attr)); simpl.
  - destruct (call_toString (read (attributes o) attr)) as [e|str];
      [discriminate|]. injection Hform as <-. simpl. rewrite Ho. reflexivity.
  - injection Hform as <-. rewrite Ho.
    by destruct (call_toString (read (attributes o) attr)).
Qed.

Lemma escape_throws `{Host} (w : World) (this : loc) (o : ParseConfig)
    (attr : string) (e : error) :
  heap w !! this = Some o ->
  truthy_member (lookup_escaped (_escapedAttributes o) attr) = false ->
  escaped_form (read (attributes o) attr) = inl e ->
  ParseConfig.escape this attr w = (Throw e, w).
Proof.
  intros Ho Hc Hform. unfold escaped_form in *. run. rewrite Ho, Hc.
  destruct (not_nullish_member (read (attributes o) attr)); [|discriminate].
  destruct (call_toString (read (attributes o) attr)) as [e'|str];
    [|discriminate]. by injection Hform as ->.
Qed.

Lemma escape_absent `{Host} (w : World) (this : loc) (attr : string) :
  heap w !! this = None ->
  ParseConfig.escape this attr w = (Throw (TypeError "not a ParseConfig"), w).
Proof. intros Ho. run. by rewrite Ho. Qed.

Lemma truthy_string_cases (c : option string) :
  (exists html, c = Some html /\ html <> EmptyString /\ truthy_string c = true)
  \/ truthy_string c = false.
Proof.
  destruct c as [html|]; [|by right]. simpl.
  destruct (String.eqb_spec html EmptyString); [by right|].
  left. by exists html.
Qed.

Lemma escape_update_heap `{Host} (w : World) (this : loc) (o : ParseConfig)
    (attr html : string) :
  heap (escape_update this o attr html w)
  = <[this := {| attributes := attributes o;
                 _escapedAttributes :=
                   <[attr := html]> (_escapedAttributes o) |}]> (heap w).
Proof.
  unfold escape_update.
  destruct (call_toString _); [reflexivity|]. by destruct (not_nullish_member _).
Qed.

Lemma escape_update_rest `{Host} (w : World) (this : loc) (o : ParseConfig)
    (attr html : string) :
  currentConfig (escape_update this o attr html w) = currentConfig w
  /\ storage (escape_update this o attr html w) = storage w.
Proof.
  unfold escape_update.
  destruct (call_toString _); [done|]. by destruct (not_nullish_member _).
Qed.

Lemma escape_update_lookup `{Host} (w : World) (this : loc) (o : ParseConfig)
    (attr html : string) :
  heap w !! this = Some o ->
  heap (escape_update this o attr html w) !! this
  = Some {| attributes := attributes o;
            _escapedAttributes := <[attr := html]> (_escapedAttributes o) |}.
Proof.
  intros Ho. rewrite escape_update_heap.
  apply list_lookup_insert_eq. eapply lookup_lt_Some; eauto.
Qed.

Lemma escape_update_nullish `{Host} (w : World) (this : loc) (o : ParseConfig)
    (attr html : string) :
  not_nullish_member (read (attributes o) attr) = false ->
  calls (escape_update this o attr html w) = calls w.
Proof.
  intros Hnull. unfold escape_update. rewrite Hnull.
  by destruct (call_toString _).
Qed.





(** ** [current()] *)

Lemma decodePayload_unusable `{Host} (data : option string) :
  unusable_snapshot data ->
  truthy_string data && truthy (decodePayload (default EmptyString data)) = false.
Proof.
  unfold decodePayload.
  intros [-> | [(s & -> & Hp) | [(s & v & -> & Hp & Hv) | (s & v & e & -> & Hp & He)]]];
    simpl; [reflexivity | | |]; rewrite Hp.
  - apply andb_false_r.
  - rewrite truthy_object_is_object, Hv. apply andb_false_r.
  - destruct (truthy v && typeof_object v); [rewrite He|]; apply andb_false_r.
Qed.

Lemma decodePayload_usable `{Host} (s : string) (v d : value) :
  JSON_parse s = Some v -> is_object v = true -> decode v = inr d ->
  decodePayload s = d.
Proof.
  intros Hp Hv Hd. unfold decodePayload.
  by rewrite Hp, truthy_object_is_object, Hv, Hd.
Qed.

Ltac same_world :=
  unfold set_calls, set_heap, set_currentConfig, set_storage; simpl;
  rewrite <- ?app_assoc; simpl; reflexivity.

Ltac run_current :=
  unfold DefaultController.current, Storage.generatePath, Storage.async,
    Storage.getItem, Storage.getItemAsync; run;
  unfold set_calls, set_heap, set_currentConfig, set_storage; simpl.

(** C7: with the cache populated, [current()] hands back the cached
    config at once and touches nothing: no call reaches the Storage
    controller, whether it is synchronous or not. *)
Theorem current_returns_cached `{Host} (w : World) (c : loc) :
  currentConfig w = Some c ->
  DefaultController.current w = (Normal (Sync c), w).
Proof.
  intros Hc. unfold DefaultController.current. run. by rewrite Hc.
Qed.

Lemma current_sync_unusable `{Host} (w : World) :
  Storage_async = false ->
  currentConfig w = None ->
  unusable_snapshot (storage w !! Storage_generatePath CURRENT_CONFIG_KEY) ->
  DefaultController.current w = (Normal (Sync (length (heap w))), current_miss w).
Proof.
  intros Hsync Hnone Hbad. apply decodePayload_unusable in Hbad.
  run_current. rewrite Hnone, Hsync. simpl.
  destruct (truthy_string _); simpl in *; [rewrite Hbad|];
    unfold current_miss; rewrite Hsync; same_world.
Qed.

Lemma current_sync_usable `{Host} (w : World) (s : string) (v d : value) :
  Storage_async = false ->
  currentConfig w = None ->
  storage w !! Storage_generatePath CURRENT_CONFIG_KEY = Some s ->
  s <> EmptyString ->
  JSON_parse s = Some v -> is_object v = true ->
  decode v = inr d -> truthy d = true ->
  DefaultController.current w
  = (Normal (Sync (length (heap w))), current_adopt d w).
Proof.
  intros Hsync Hnone Hs Hne Hp Hv Hd Ht.
  run_current. rewrite Hnone, Hsync. simpl. rewrite Hs. simpl.
  destruct (String.eqb_spec s EmptyString); [contradiction|]. simpl.
  rewrite (decodePayload_usable s v d Hp Hv Hd), Ht.
  simpl.
  rewrite lookup_app_r by lia. rewrite Nat.sub_diag. simpl.
  rewrite insert_app_r_alt by lia. rewrite Nat.sub_diag.
  unfold current_adopt. rewrite Hsync. same_world.
Qed.

(** A caller that waits sees the same outcome from either kind of
    storage. *)
Lemma await_current_unusable `{Host} (w : World) :
  currentConfig w = None ->
  unusable_snapshot (storage w !! Storage_generatePath CURRENT_CONFIG_KEY) ->
  Storage_read_error (Storage_generatePath CURRENT_CONFIG_KEY) = None ->
  await_current w = (inr (length (heap w)), current_miss w).
Proof.
  intros Hnone Hbad Hread. unfold await_current.
  destruct Storage_async eqn:Hasync.
  - apply decodePayload_unusable in Hbad.
    run_current. rewrite Hnone, Hasync. simpl. rewrite Hread. simpl.
    destruct (truthy_string _); simpl in *; [rewrite Hbad|];
      unfold current_miss; rewrite Hasync; same_world.
  - by rewrite current_sync_unusable.
Qed.

Lemma await_current_usable `{Host} (w : World) (s : string) (v d : value) :
  currentConfig w = None ->
  storage w !! Storage_generatePath CURRENT_CONFIG_KEY = Some s ->
  s <> EmptyString ->
  JSON_parse s = Some v -> is_object v = true ->
  decode v = inr d -> truthy d = true ->
  Storage_read_error (Storage_generatePath CURRENT_CONFIG_KEY) = None ->
  await_current w = (inr (length (heap w)), current_adopt d w).
Proof.
  intros Hnone Hs Hne Hp Hv Hd Ht Hread. unfold await_current.
  destruct Storage_async eqn:Hasync.
  - run_current. rewrite Hnone, Hasync. simpl. rewrite Hread, Hs. simpl.
    destruct (String.eqb_spec s EmptyString); [contradiction|]. simpl.
    rewrite (decodePayload_usable s v d Hp Hv Hd), Ht. simpl.
    rewrite lookup_app_r by lia. rewrite Nat.sub_diag. simpl.
    rewrite insert_app_r_alt by lia. rewrite Nat.sub_diag.
    unfold current_adopt. rewrite Hasync. same_world.
  - by rewrite (current_sync_usable w s v d).
Qed.

Lemma lookup_fresh (h : list ParseConfig) (o : ParseConfig) :
  (h ++ [o])%list !! length h = Some o.
Proof. rewrite lookup_app_r by lia. by rewrite Nat.sub_diag. Qed.

(** C5, as the code has it: with a synchronous backend and nothing
    cached, a snapshot that is absent, is not JSON, is the JSON of null
    or of a primitive, or fails to decode makes [current()] return, at
    once and without an error, a new config with no attributes.  The
    JSON of an array is not among them: to [typeof] an array is an
    object. *)
Theorem current_unusable_snapshot_empty `{Host} (w : World) :
  Storage_async = false ->
  currentConfig w = None ->
  unusable_snapshot (storage w !! Storage_generatePath CURRENT_CONFIG_KEY) ->
  exists config w',
    DefaultController.current w = (Normal (Sync config), w')
    /\ heap w' !! config = Some empty_ParseConfig
    /\ heap w !! config = None.
Proof.
  intros Hsync Hnone Hbad. exists (length (heap w)), (current_miss w).
  split; [by apply current_sync_unusable|]. split.
  - apply lookup_fresh.
  - by apply lookup_ge_None.
Qed.

(** C6: with a synchronous backend that holds the snapshot [{"a":1}] and
    nothing cached, [current()] returns at once a config whose attribute
    [a] is 1, and that config is now the cached one. *)
Theorem current_loads_snapshot `{Host} (w : World) :
  Storage_async = false ->
  currentConfig w = None ->
  storage w !! Storage_generatePath CURRENT_CONFIG_KEY = Some snapshot_a1 ->
  JSON_parse snapshot_a1 = Some (VObj [("a", VNum 1)]) ->
  decode (VObj [("a", VNum 1)]) = inr (VObj [("a", VNum 1)]) ->
  exists config w',
    DefaultController.current w = (Normal (Sync config), w')
    /\ ParseConfig.get config "a" w' = (Normal (VNum 1), w')
    /\ currentConfig w' = Some config.
Proof.
  intros Hsync Hnone Hs Hp Hd.
  exists (length (heap w)), (current_adopt (VObj [("a", VNum 1)]) w).
  split; [|split].
  - by apply (current_sync_usable w snapshot_a1 (VObj [("a", VNum 1)])).
  - run. by rewrite lookup_fresh.
  - reflexivity.
Qed.

(** In JavaScript an array is an object: a snapshot that is the JSON of
    an array passes the test of [decodePayload], and what [decode] makes
    of it becomes the attributes of the config, which is cached. *)
Remark current_adopts_array_snapshot `{Host} (w : World) (s : string)
    (elems : list value) (d : value) :
  Storage_async = false ->
  currentConfig w = None ->
  storage w !! Storage_generatePath CURRENT_CONFIG_KEY = Some s ->
  s <> EmptyString ->
  JSON_parse s = Some (VArr elems) ->
  decode (VArr elems) = inr d -> truthy d = true ->
  exists config w',
    DefaultController.current w = (Normal (Sync config), w')
    /\ heap w' !! config = Some {| attributes := d; _escapedAttributes := ∅ |}
    /\ currentConfig w' = Some config.
Proof.
  intros Hsync Hnone Hs Hne Hp Hd Ht.
  exists (length (heap w)), (current_adopt d w). split; [|split].
  - by apply (current_sync_usable w s (VArr elems) d).
  - apply lookup_fresh.
  - reflexivity.
Qed.

(** With an asynchronous backend and nothing cached, [current()] returns
    a promise that waits for the storage; nothing is cached yet. *)
Remark current_async_pending `{Host} (w : World) :
  Storage_async = true ->
  currentConfig w = None ->
  exists k w',
    DefaultController.current w
    = (Normal (Async (StorageGetItemAsync
                        (Storage_generatePath CURRENT_CONFIG_KEY) k)), w')
    /\ currentConfig w' = None
    /\ storage_reads (calls w')
       = (storage_reads (calls w)
            ++ [Storage_generatePath CURRENT_CONFIG_KEY])%list.
Proof.
  intros Hasync Hnone. run_current. rewrite Hnone, Hasync. simpl.
  eexists. eexists. split; [reflexivity|]. split; [exact Hnone|].
  simpl. unfold storage_reads. rewrite <- !app_assoc, omap_app. reflexivity.
Qed.

Lemma storage_reads_current_miss `{Host} (w : World) :
  storage_reads (calls (current_miss w))
  = (storage_reads (calls w) ++ [Storage_generatePath CURRENT_CONFIG_KEY])%list.
Proof.
  unfold storage_reads, current_miss. simpl. rewrite omap_app. simpl.
  by destruct Storage_async.
Qed.

Lemma current_times_unusable `{Host} (w : World) :
  currentConfig w = None ->
  unusable_snapshot (storage w !! Storage_generatePath CURRENT_CONFIG_KEY) ->
  Storage_read_error (Storage_generatePath CURRENT_CONFIG_KEY) = None ->
  forall n,
    currentConfig (current_times n w) = None
    /\ storage (current_times n w) = storage w
    /\ length (heap (current_times n w)) = length (heap w) + n
    /\ storage_reads (calls (current_times n w))
       = (storage_reads (calls w)
            ++ replicate n (Storage_generatePath CURRENT_CONFIG_KEY))%list.
Proof.
  intros Hnone Hbad Hread. induction n as [|n (Hc & Hs & Hl & Hr)].
  - simpl. by rewrite app_nil_r, Nat.add_0_r.
  - cbn [current_times].
    rewrite await_current_unusable; [|exact Hc|by rewrite Hs|exact Hread].
    cbn [snd]. split; [exact Hc|]. split; [exact Hs|]. split.
    + unfold current_miss. simpl. rewrite length_app, Hl. simpl. lia.
    + rewrite storage_reads_current_miss, Hr, <- app_assoc. f_equal.
      change [Storage_generatePath CURRENT_CONFIG_KEY]
        with (replicate 1 (Storage_generatePath CURRENT_CONFIG_KEY)).
      rewrite <- replicate_add. f_equal. lia.
Qed.

(** C10: the empty config that [current()] returns when the snapshot is
    unusable is not cached.  However often [current()] has been called,
    the cache is still empty and the next call reads the storage again,
    builds another empty config and leaves the cache empty. *)
Theorem unusable_snapshot_not_cached `{Host} (w : World) :
  currentConfig w = None ->
  unusable_snapshot (storage w !! Storage_generatePath CURRENT_CONFIG_KEY) ->
  Storage_read_error (Storage_generatePath CURRENT_CONFIG_KEY) = None ->
  forall n,
    let path := Storage_generatePath CURRENT_CONFIG_KEY in
    let before := current_times n w in
    let config := length (heap w) + n in
    exists after,
      await_current before = (inr config, after)
      /\ heap before !! config = None
      /\ heap after !! config = Some empty_ParseConfig
      /\ currentConfig after = None
      /\ storage_reads (calls after)
         = (storage_reads (calls w) ++ replicate (S n) path)%list.
Proof.
  intros Hnone Hbad Hread n path before config.
  destruct (current_times_unusable w Hnone Hbad Hread n)
    as (Hc & Hs & Hl & _).
  destruct (current_times_unusable w Hnone Hbad Hread (S n))
    as (_ & _ & _ & Hr).
  fold before in Hc, Hs, Hl.
  assert (Hrun : await_current before = (inr config, current_miss before)).
  { unfold config. rewrite <- Hl.
    apply await_current_unusable; [exact Hc|by rewrite Hs|exact Hread]. }
  cbn [current_times] in Hr. fold before in Hr. rewrite Hrun in Hr.
  exists (current_miss before).
  split; [exact Hrun|]. split; [|split; [|split]].
  - apply lookup_ge_None. unfold config. lia.
  - unfold config. rewrite <- Hl. apply lookup_fresh.
  - exact Hc.
  - exact Hr.
Qed.

(** ** [get()] *)

Lemma assoc_set_assoc_eq {A : Type} (k : string) (v : A) (l : list (string * A)) :
  assoc k (set_assoc k v l) = Some v.
Proof.
  induction l as [|[k' v'] l IH]; simpl.
  - by rewrite String.eqb_refl.
  - destruct (String.eqb k k') eqn:E; simpl; rewrite E; [reflexivity | exact IH].
Qed.

Lemma assoc_set_assoc_ne {A : Type} (k k0 : string) (v : A)
    (l : list (string * A)) :
  k0 <> k -> assoc k0 (set_assoc k v l) = assoc k0 l.
Proof.
  intros Hne. induction l as [|[k' v'] l IH]; simpl.
  - destruct (String.eqb_spec k0 k); [contradiction | reflexivity].
  - destruct (String.eqb_spec k k') as [<- |]; simpl.
    + destruct (String.eqb_spec k0 k); [contradiction | reflexivity].
    + by rewrite IH.
Qed.

Lemma assoc_keys {A : Type} (k : string) (l : list (string * A)) :
  k ∈ map fst l <-> is_Some (assoc k l).
Proof.
  induction l as [|[k' v'] l IH]; simpl.
  - split; [by intros ?%elem_of_nil | by intros [? ?]].
  - rewrite elem_of_cons, IH.
    destruct (String.eqb_spec k k') as [-> |].
    + split; [by eexists | by left].
    + split; [by intros [? | ?] | by right].
Qed.

Lemma get_prop_obj (props : list (string * value)) (k : string) :
  get_prop (VObj props) k = default VUndefined (assoc k props).
Proof.
  unfold get_prop. simpl. destruct (assoc k props); [reflexivity|].
  by destruct (String.eqb k "length").
Qed.

Lemma bind_Normal {A B : Type} (m : M A) (k : A -> M B) (w w' : World) (a : A) :
  m w = (Normal a, w') -> bind m k w = k a w'.
Proof. intros Hm. unfold bind. by rewrite Hm. Qed.

Lemma bind_Throw {A B : Type} (m : M A) (k : A -> M B) (w w' : World) (e : error) :
  m w = (Throw e, w') -> bind m k w = (Throw e, w').
Proof. intros Hm. unfold bind. by rewrite Hm. Qed.

Lemma assign_attributes_run (config : loc) (o : ParseConfig) (a : object)
    (w : World) :
  heap w !! config = Some o ->
  assign_attributes config a w
  = (Normal tt,
     set_heap (<[config := {| attributes := a;
                              _escapedAttributes := _escapedAttributes o |}]>
                 (heap w)) w).
Proof. intros Ho. unfold assign_attributes, bind, deref. by rewrite Ho. Qed.

(** An assignment on an object literal keeps it an object literal; it
    touches no other name, and under any name but [__proto__] it leaves
    the value as an own property. *)
Lemma assign_base (a : object) (k : string) (v : value)
    (acc : list (string * value)) :
  base a = VObj acc ->
  exists acc',
    base (assign a k v) = VObj acc'
    /\ (forall k', k' <> k -> assoc k' acc' = assoc k' acc)
    /\ (k <> "__proto__" -> assoc k acc' = Some v).
Proof.
  intros Hbase. unfold assign. rewrite Hbase.
  destruct (assoc k acc) eqn:Hk.
  - exists (set_assoc k v acc). split; [reflexivity|]. split.
    + intros k' Hne. by apply assoc_set_assoc_ne.
    + intros _. apply assoc_set_assoc_eq.
  - destruct (String.eqb_spec k "__proto__") as [-> | Hne]; simpl.
    + destruct (accessor_reachable a); simpl.
      * exists acc. split; [by destruct (typeof_object v)|]. by split.
      * exists (set_assoc "__proto__" v acc). split; [reflexivity|]. split.
        -- intros k' Hne. by apply assoc_set_assoc_ne.
        -- intros _. apply assoc_set_assoc_eq.
    + exists (set_assoc k v acc). split; [reflexivity|]. split.
      * intros k' Hne'. by apply assoc_set_assoc_ne.
      * intros _. apply assoc_set_assoc_eq.
Qed.

(** The loop of [get()] is [fill]: it rewrites the attributes of the
    config it fills and nothing else. *)
Lemma get_loop `{Host} (params : value) (config : loc)
    (esc : gmap string string) (keys : list string) :
  forall (a : object) (w : World),
    heap w !! config = Some {| attributes := a; _escapedAttributes := esc |} ->
    for_each keys (fun attr =>
      let* v := lift (decode (get_prop params attr)) in
      let* o := deref config in
      assign_attributes config (assign (attributes o) attr v)) w
    = (fst (fill params keys a),
       set_heap (<[config := {| attributes := snd (fill params keys a);
                                _escapedAttributes := esc |}]> (heap w)) w).
Proof.
  induction keys as [|k keys IH]; intros a w Ho.
  - simpl. unfold ret. f_equal. destruct w; unfold set_heap; simpl in *.
    f_equal. symmetry. by apply list_insert_id.
  - simpl. destruct (decode (get_prop params k)) as [e|d] eqn:Hd.
    + erewrite bind_Throw; cycle 1.
      { erewrite bind_Throw; reflexivity. }
      simpl. f_equal. destruct w; unfold set_heap; simpl in *. f_equal.
      symmetry. by apply list_insert_id.
    + set (o' := {| attributes := assign a k d; _escapedAttributes := esc |}).
      set (w' := set_heap (<[config := o']> (heap w)) w).
      assert (Ho' : heap w' !! config = Some o').
      { simpl. apply list_lookup_insert_eq. eapply lookup_lt_Some; eauto. }
      erewrite bind_Normal; cycle 1.
      { erewrite bind_Normal; cycle 1.
        { reflexivity. }
        erewrite bind_Normal; cycle 1.
        { unfold deref. rewrite Ho. reflexivity. }
        simpl. apply (assign_attributes_run config _ _ w Ho). }
      etransitivity; [exact (IH (assign a k d) w' Ho')|]. f_equal.
      unfold w', set_heap. simpl. f_equal. apply list_insert_insert_eq.
Qed.

(** When every field decodes, the loop runs to its end; the object ends
    with each field under its name, except possibly the field named
    [__proto__], and with no own property under any other name. *)
Lemma fill_decodes `{Host} (params : value) (keys : list string) :
  (forall k, k ∈ keys -> exists d, decode (get_prop params k) = inr d) ->
  forall (a : object) (acc : list (string * value)),
    base a = VObj acc ->
    exists attrs,
      fst (fill params keys a) = Normal tt
      /\ base (snd (fill params keys a)) = VObj attrs
      /\ (forall k, k ∈ keys -> k <> "__proto__" ->
          exists d,
            decode (get_prop params k) = inr d /\ assoc k attrs = Some d)
      /\ (forall k, k ∉ keys -> assoc k attrs = assoc k acc).
Proof.
  induction keys as [|k keys IH]; intros Hdec a acc Hbase.
  - exists acc. simpl. split; [done|]. split; [done|]. split; [|done].
    by intros k ?%elem_of_nil.
  - destruct (Hdec k) as [d Hd]; [by left|].
    destruct (assign_base a k d acc Hbase) as (acc1 & Hbase1 & Hother & Hthis).
    destruct (IH (fun k' Hk' => Hdec k' (proj2 (elem_of_cons _ _ _) (or_intror Hk')))
                (assign a k d) acc1 Hbase1)
      as (attrs & Hrun & Hattrs & Hin & Hout).
    exists attrs. simpl. rewrite Hd.
    split; [exact Hrun|]. split; [exact Hattrs|]. split.
    + intros k' Hk' Hne.
      destruct (decide (k' ∈ keys)) as [Hin'|Hnin]; [by apply Hin|].
      apply elem_of_cons in Hk' as [-> | ?]; [|contradiction].
      exists d. split; [exact Hd|]. rewrite (Hout k Hnin). by apply Hthis.
    + intros k' Hk'. apply not_elem_of_cons in Hk' as [Hne Hnin].
      rewrite (Hout k' Hnin). by apply Hother.
Qed.

(** When some field does not decode, the loop stops at the first such
    field with the error [decode] threw. *)
Lemma fill_throws `{Host} (params : value) (keys : list string) :
  (exists k e, k ∈ keys /\ decode (get_prop params k) = inl e) ->
  forall a : object,
    exists k e,
      k ∈ keys
      /\ decode (get_prop params k) = inl e
      /\ fst (fill params keys a) = Throw e.
Proof.
  induction keys as [|k keys IH]; intros (kf & ef & Hkf & Hef) a.
  - by apply elem_of_nil in Hkf.
  - simpl. destruct (decode (get_prop params k)) as [e|d] eqn:Hd.
    + exists k, e. split; [by left|]. by split.
    + destruct (IH) with (a := assign a k d) as (k' & e & Hk' & He & Hrun).
      { exists kf, ef. split; [|exact Hef].
        apply elem_of_cons in Hkf as [-> | ?]; [congruence | done]. }
      exists k', e. split; [by right|]. by split.
Qed.

Lemma get_is_get_promise `{Host} (w : World) :
  DefaultController.get w = (Normal get_promise, get_requested w).
Proof. reflexivity. Qed.

Lemma get_callback_invalid `{Host} (u : World) (response : value) :
  truthy response && truthy (get_prop response "params") = false ->
  get_callback response u
  = (Normal (Rejected (ParseError INVALID_JSON "Config JSON response invalid.")),
     u).
Proof.
  intros Hinv. unfold get_callback. cbn.
  assert (negb (truthy response) || negb (truthy (get_prop response "params"))
          = true) as ->.
  { rewrite <- negb_andb. by rewrite Hinv. }
  reflexivity.
Qed.

(** The callback of [get()] on a response it does not refuse, run on any
    world: it creates the config and runs the loop; when the loop ends
    it caches the config and returns with the storage write pending,
    and when the loop throws nothing more is done. *)
Lemma get_callback_valid `{Host} (u : World) (response : value) :
  truthy response = true ->
  truthy (get_prop response "params") = true ->
  let params := get_prop response "params" in
  let a := snd (fill params (own_keys params) (VObj [])) in
  exists k1,
    (forall w', k1 tt w' = (Normal (Resolved (length (heap u))), w'))
    /\ get_callback response u
       = match fst (fill params (own_keys params) (VObj [])) with
         | Normal _ =>
             (Normal (StorageSetItemAsync
                        (Storage_generatePath CURRENT_CONFIG_KEY)
                        (JSON_stringify params) k1),
              get_built a (JSON_stringify params) u)
         | Throw e =>
             (Throw e,
              set_heap (heap u ++ [{| attributes := a;
                                      _escapedAttributes := ∅ |}]) u)
         end.
Proof.
  intros Hresp Hparams params a.
  set (config := length (heap u)).
  set (u1 := set_heap (heap u ++ [empty_ParseConfig]) u).
  assert (Ho1 : heap u1 !! config = Some empty_ParseConfig) by apply lookup_fresh.
  pose proof (get_loop params config ∅ (own_keys params) (VObj []) u1 Ho1)
    as Hloop.
  fold a in Hloop.
  assert (Hheap : <[config := {| attributes := a; _escapedAttributes := ∅ |}]>
                    (heap u1)
                  = (heap u ++ [{| attributes := a;
                                   _escapedAttributes := ∅ |}])%list).
  { simpl. rewrite insert_app_r_alt by lia. by rewrite Nat.sub_diag. }
  rewrite Hheap in Hloop.
  exists (fun _ : unit => ret (Resolved config)). split; [reflexivity|].
  unfold get_callback. cbn. rewrite Hresp, Hparams. simpl.
  erewrite bind_Normal by reflexivity.
  erewrite bind_Normal; cycle 1.
  { apply assign_attributes_run. apply lookup_fresh. }
  assert (Hu1 : set_heap
            (<[length (heap u) := {| attributes := VObj [];
                                      _escapedAttributes :=
                                        _escapedAttributes empty_ParseConfig |}]>
               (heap (set_heap (heap u ++ [empty_ParseConfig]) u)))
            (set_heap (heap u ++ [empty_ParseConfig]) u) = u1).
  { unfold u1, set_heap. simpl. f_equal.
    rewrite insert_app_r_alt by lia. by rewrite Nat.sub_diag. }
  fold params. destruct (fst (fill params (own_keys params) (VObj [])))
    as [[]|e].
  - erewrite bind_Normal; cycle 1.
    { unfold for_in. etransitivity; [|exact Hloop]. f_equal. exact Hu1. }
    unfold assign_currentConfig, Storage.generatePath, Storage.setItemAsync,
      spy, bind, ret. simpl. f_equal.
    unfold get_built, u1, config, set_currentConfig, set_calls, set_heap.
    simpl. f_equal. by rewrite <- !app_assoc.
  - erewrite bind_Throw; cycle 1.
    { unfold for_in. etransitivity; [|exact Hloop]. f_equal. exact Hu1. }
    reflexivity.
Qed.

(** Settling the promise of [get()] on any world, for a response that
    the backend delivers and [get()] does not refuse. *)
Lemma settle_get_promise `{Host} (u : World) (response : value) :
  REST_response "GET" "config" (VObj []) (VObj []) = inr response ->
  truthy response = true ->
  truthy (get_prop response "params") = true ->
  let params := get_prop response "params" in
  let path := Storage_generatePath CURRENT_CONFIG_KEY in
  let json := JSON_stringify params in
  let a := snd (fill params (own_keys params) (VObj [])) in
  settle get_promise u
  = match fst (fill params (own_keys params) (VObj [])) with
    | Normal _ =>
        match Storage_write_error path json with
        | Some e => (inl e, get_built a json u)
        | None =>
            (inr (length (heap u)),
             set_storage (<[path := json]> (storage u)) (get_built a json u))
        end
    | Throw e =>
        (inl e,
         set_heap (heap u ++ [{| attributes := a;
                                 _escapedAttributes := ∅ |}]) u)
    end.
Proof.
  intros Hrest Hresp Hparams params path json a.
  destruct (get_callback_valid u response Hresp Hparams) as (k1 & Hk1 & Hk0).
  fold params a in Hk0.
  unfold get_promise. simpl. rewrite Hrest, Hk0.
  destruct (fst (fill params (own_keys params) (VObj []))); [|reflexivity].
  simpl. fold path json.
  destruct (Storage_write_error path json); [reflexivity|]. by rewrite Hk1.
Qed.

(** The attributes object that [get()] builds from a response it
    accepts. *)
Lemma fetchable_fill `{Host} (response : value) :
  fetchable response ->
  let params := get_prop response "params" in
  let a := snd (fill params (own_keys params) (VObj [])) in
  fst (fill params (own_keys params) (VObj [])) = Normal tt
  /\ (forall k, k ∈ own_keys params -> k <> "__proto__" ->
      exists d,
        decode (get_prop params k) = inr d /\ read a k = Data d)
  /\ (forall k, k ∉ own_keys params -> has_own_property (base a) k = false).
Proof.
  intros (_ & _ & _ & Hdec) params a.
  destruct (fill_decodes params (own_keys params) Hdec (VObj []) [] eq_refl)
    as (attrs & Hrun & Hattrs & Hin & Hout).
  fold a in Hattrs. split; [exact Hrun|]. split.
  - intros k Hk Hne. destruct (Hin k Hk Hne) as (d & Hd & Hk').
    exists d. split; [exact Hd|]. apply read_own.
    by rewrite Hattrs, own_property_obj.
  - intros k Hk. rewrite Hattrs, has_own_property_obj, (Hout k Hk).
    apply bool_decide_eq_false. by intros [? ?].
Qed.

Lemma get_built_requested `{Host} (a : object) (json : string) (w : World) :
  get_built a json (get_requested w) = get_fetched a json w.
Proof.
  unfold get_built, get_fetched, get_requested, set_currentConfig, set_calls,
    set_heap. simpl. by rewrite <- !app_assoc.
Qed.

Lemma get_accessor `{Host} (w : World) (config : loc) (a : object)
    (esc : gmap string string) (k : string) :
  heap w !! config = Some {| attributes := a; _escapedAttributes := esc |} ->
  ParseConfig.get config k w = (Normal (read a k), w).
Proof. intros Ho. unfold ParseConfig.get, bind, deref, ret. by rewrite Ho. Qed.

(** A response whose params is an object with fields that decode is one
    that [get()] accepts. *)
Lemma object_params_fetchable `{Host} (fields props : list (string * value)) :
  REST_response "GET" "config" (VObj []) (VObj []) = inr (VObj fields) ->
  assoc "params" fields = Some (VObj props) ->
  (forall k v, assoc k props = Some v -> exists d, decode v = inr d) ->
  fetchable (VObj fields) /\ get_prop (VObj fields) "params" = VObj props.
Proof.
  intros Hrest Hparams Hdec.
  assert (Hp : get_prop (VObj fields) "params" = VObj props)
    by (by rewrite get_prop_obj, Hparams).
  split; [|exact Hp]. split; [exact Hrest|]. split; [done|].
  rewrite Hp. split; [done|].
  intros k [v Hv]%assoc_keys. simpl in Hv. rewrite get_prop_obj, Hv.
  by apply (Hdec k).
Qed.

(** C1, as the code has it: on a response whose params is an object with
    fields that decode, [get()] builds a new config that has each field,
    decoded, as an attribute, the field named [__proto__] apart; makes it
    the cached config; asks the storage to write the JSON of the raw
    params under the path of [currentConfig]; and, when that write has
    completed, resolves with the config.  Until the write completes the
    promise is pending. *)
Theorem get_fetches_caches_persists `{Host} (w : World)
    (fields props : list (string * value)) :
  REST_response "GET" "config" (VObj []) (VObj []) = inr (VObj fields) ->
  assoc "params" fields = Some (VObj props) ->
  (forall k v, assoc k props = Some v -> exists d, decode v = inr d) ->
  Storage_write_error (Storage_generatePath CURRENT_CONFIG_KEY)
    (JSON_stringify (VObj props)) = None ->
  let path := Storage_generatePath CURRENT_CONFIG_KEY in
  let json := JSON_stringify (VObj props) in
  let config := length (heap w) in
  exists (a : object) k0 k1 w1 w2,
    DefaultController.get w
    = (Normal (RESTRequest "GET" "config" (VObj []) (VObj []) k0), get_requested w)
    /\ k0 (VObj fields) (get_requested w)
       = (Normal (StorageSetItemAsync path json k1), w1)
    /\ currentConfig w1 = Some config
    /\ storage w1 = storage w
    /\ (forall w', k1 tt w' = (Normal (Resolved config), w'))
    /\ await_get w = (inr config, w2)
    /\ heap w !! config = None
    /\ heap w2 !! config
       = Some {| attributes := a; _escapedAttributes := ∅ |}
    /\ (forall k v, k <> "__proto__" -> assoc k props = Some v ->
        exists d,
          decode v = inr d
          /\ ParseConfig.get config k w2 = (Normal (Data d), w2))
    /\ (forall k, assoc k props = None -> has_own_property (base a) k = false)
    /\ currentConfig w2 = Some config
    /\ storage w2 = <[path := json]> (storage w)
    /\ calls w2
       = (calls w ++ [Call_REST_request "GET" "config" (VObj []) (VObj []);
                      Call_Storage_generatePath CURRENT_CONFIG_KEY;
                      Call_Storage_setItemAsync path json])%list.
Proof.
  intros Hresp Hparams Hdec Hwrite path json config.
  destruct (object_params_fetchable fields props Hresp Hparams Hdec)
    as [Hfetch Hp].
  destruct (fetchable_fill (VObj fields) Hfetch) as (Hfill & Hin & Hout).
  destruct (get_callback_valid (get_requested w) (VObj fields))
    as (k1 & Hk1 & Hk0); [done|by rewrite Hp|].
  rewrite Hp in Hfill, Hin, Hout, Hk0. rewrite Hfill in Hk0.
  set (a := snd (fill (VObj props) (own_keys (VObj props)) (VObj []))) in *.
  rewrite get_built_requested in Hk0.
  exists a, get_callback, k1, (get_fetched a json w),
    (set_storage (<[path := json]> (storage w)) (get_fetched a json w)).
  assert (Ho : heap (set_storage (<[path := json]> (storage w))
                       (get_fetched a json w)) !! config
               = Some {| attributes := a; _escapedAttributes := ∅ |})
    by apply lookup_fresh.
  split; [reflexivity|]. split; [exact Hk0|]. split; [reflexivity|].
  split; [reflexivity|]. split; [exact Hk1|]. split.
  { unfold await_get. rewrite get_is_get_promise. unfold get_promise. simpl.
    rewrite Hresp, Hk0. simpl. unfold path, json. rewrite Hwrite, Hk1.
    reflexivity. }
  split; [by apply lookup_ge_None|]. split; [exact Ho|]. split.
  { intros k v Hne Hv. destruct (Hin k) as (d & Hd & Hread); [|exact Hne|].
    { apply assoc_keys. by exists v. }
    rewrite get_prop_obj, Hv in Hd. exists d. split; [exact Hd|].
    rewrite (get_accessor _ _ _ _ k Ho). by rewrite Hread. }
  split.
  { intros k Hk. apply Hout. intros [v Hv]%assoc_keys. simpl in Hv.
    congruence. }
  done.
Qed.

(** C3: when the response is as above but the storage refuses the
    write, the promise of [get()] rejects with the failure of the storage
    and the config is not delivered; the cache nevertheless holds the new
    config already, a config that did not exist before and that has the
    decoded fields as attributes. *)
Theorem get_write_failure_rejects `{Host} (w : World)
    (fields props : list (string * value)) (e : error) :
  REST_response "GET" "config" (VObj []) (VObj []) = inr (VObj fields) ->
  assoc "params" fields = Some (VObj props) ->
  (forall k v, assoc k props = Some v -> exists d, decode v = inr d) ->
  Storage_write_error (Storage_generatePath CURRENT_CONFIG_KEY)
    (JSON_stringify (VObj props)) = Some e ->
  let config := length (heap w) in
  exists (a : object) w2,
    await_get w = (inl e, w2)
    /\ currentConfig w2 = Some config
    /\ heap w !! config = None
    /\ heap w2 !! config
       = Some {| attributes := a; _escapedAttributes := ∅ |}
    /\ (forall k v, k <> "__proto__" -> assoc k props = Some v ->
        exists d,
          decode v = inr d
          /\ ParseConfig.get config k w2 = (Normal (Data d), w2))
    /\ (forall k, assoc k props = None -> has_own_property (base a) k = false)
    /\ storage w2 = storage w.
Proof.
  intros Hresp Hparams Hdec Hwrite config.
  destruct (object_params_fetchable fields props Hresp Hparams Hdec)
    as [Hfetch Hp].
  destruct (fetchable_fill (VObj fields) Hfetch) as (Hfill & Hin & Hout).
  pose proof (settle_get_promise (get_requested w) (VObj fields) Hresp)
    as Hrun.
  simpl in Hrun. rewrite Hp in Hfill, Hin, Hout, Hrun.
  rewrite Hfill, Hwrite in Hrun.
  set (a := snd (fill (VObj props) (own_keys (VObj props)) (VObj []))) in *.
  exists a, (get_built a (JSON_stringify (VObj props)) (get_requested w)).
  assert (Ho : heap (get_built a (JSON_stringify (VObj props))
                       (get_requested w)) !! config
               = Some {| attributes := a; _escapedAttributes := ∅ |})
    by apply lookup_fresh.
  split.
  { unfold await_get. rewrite get_is_get_promise. by apply Hrun. }
  split; [reflexivity|]. split; [by apply lookup_ge_None|].
  split; [exact Ho|]. split.
  { intros k v Hne Hv. destruct (Hin k) as (d & Hd & Hread); [|exact Hne|].
    { apply assoc_keys. by exists v. }
    rewrite get_prop_obj, Hv in Hd. exists d. split; [exact Hd|].
    rewrite (get_accessor _ _ _ _ k Ho). by rewrite Hread. }
  split; [|reflexivity].
  intros k Hk. apply Hout. intros [v Hv]%assoc_keys. simpl in Hv. congruence.
Qed.

(** What [current()] hands to a caller does not depend on what the spy
    has recorded. *)
Lemma await_current_spy_irrelevant `{Host} (l : list call) (w : World) :
  fst (await_current (set_calls l w)) = fst (await_current w).
Proof.
  unfold await_current. run_current.
  destruct (currentConfig w); [reflexivity|].
  destruct Storage_async; simpl.
  - destruct (Storage_read_error _); [reflexivity|]. simpl.
    destruct (truthy_string _); [|reflexivity].
    destruct (truthy _); [|reflexivity]. simpl.
    rewrite lookup_app_r by lia. rewrite Nat.sub_diag. reflexivity.
  - destruct (truthy_string _); [|reflexivity].
    destruct (truthy _); [|reflexivity]. simpl.
    rewrite lookup_app_r by lia. rewrite Nat.sub_diag. reflexivity.
Qed.

(** C2: on a response that is absent or has no params field, [get()]
    rejects with an INVALID_JSON error; the cache, the objects and the
    storage are as before, and a following [current()] gives what it
    would have given before the call. *)
Theorem get_invalid_response_rejects `{Host} (w : World) (response : value) :
  REST_response "GET" "config" (VObj []) (VObj []) = inr response ->
  has_own_property response "params" = false ->
  exists w',
    await_get w
    = (inl (ParseError INVALID_JSON "Config JSON response invalid."), w')
    /\ currentConfig w' = currentConfig w
    /\ heap w' = heap w
    /\ storage w' = storage w
    /\ fst (await_current w') = fst (await_current w).
Proof.
  intros Hresp Hno. exists (get_requested w).
  split; [|repeat split; apply await_current_spy_irrelevant].
  unfold await_get, DefaultController.get, RESTController.request.
  erewrite bind_Normal by reflexivity. unfold ret. simpl.
  rewrite Hresp, (get_prop_absent response "params" Hno). simpl.
  rewrite orb_true_r. reflexivity.
Qed.

(** ** What a call does to the objects *)

(** However [escape(attr)] ends, it has changed nothing, or it has
    computed a string and stored it. *)
Lemma escape_cases `{Host} (w w' : World) (this : loc) (attr : string)
    (r : result member) :
  ParseConfig.escape this attr w = (r, w') ->
  w' = w
  \/ exists o html,
       heap w !! this = Some o
       /\ escaped_form (read (attributes o) attr) = inr html
       /\ w' = escape_update this o attr html w.
Proof.
  intros Hrun. destruct (heap w !! this) as [o|] eqn:Ho.
  - destruct (truthy_member (lookup_escaped (_escapedAttributes o) attr))
      eqn:Hc.
    + rewrite (escape_hit w this o attr Ho Hc) in Hrun.
      injection Hrun as _ <-. by left.
    + destruct (escaped_form (read (attributes o) attr)) as [e|html] eqn:Hform.
      * rewrite (escape_throws w this o attr e Ho Hc Hform) in Hrun.
        injection Hrun as _ <-. by left.
      * rewrite (escape_miss w this o attr html Ho Hc Hform) in Hrun.
        injection Hrun as _ <-. right. by exists o, html.
  - rewrite (escape_absent w this attr Ho) in Hrun.
    injection Hrun as _ <-. by left.
Qed.

Lemma escape_frame `{Host} (w w' : World) (this : loc)
    (attr : string) (r : result member) :
  ParseConfig.escape this attr w = (r, w') ->
  currentConfig w' = currentConfig w
  /\ storage w' = storage w
  /\ length (heap w') = length (heap w)
  /\ (forall l, l <> this -> heap w' !! l = heap w !! l)
  /\ (forall o, heap w !! this = Some o ->
      exists o',
        heap w' !! this = Some o'
        /\ attributes o' = attributes o
        /\ forall a, a <> attr ->
             _escapedAttributes o' !! a = _escapedAttributes o !! a).
Proof.
  intros [-> | (o & html & Ho & Hform & ->)]%escape_cases.
  - repeat split; try done. intros o Ho. by exists o.
  - destruct (escape_update_rest w this o attr html) as [Hc Hs].
    split; [exact Hc|]. split; [exact Hs|]. rewrite escape_update_heap.
    split; [apply length_insert|].
    split; [intros l Hl; by apply list_lookup_insert_ne|].
    intros o0 Ho0. rewrite Ho in Ho0. injection Ho0 as <-.
    eexists. split; [|split].
    + apply list_lookup_insert_eq. eapply lookup_lt_Some; eauto.
    + reflexivity.
    + intros a Ha. simpl. by apply lookup_insert_ne.
Qed.

Lemma get_preserves_world `{Host} (w w' : World) (this : loc) (attr : string)
    (r : result member) :
  ParseConfig.get this attr w = (r, w') -> w' = w.
Proof.
  unfold ParseConfig.get, bind, deref, ret.
  destruct (heap w !! this); by intros [= _ <-].
Qed.

Lemma await_current_allocates `{Host} (w w' : World) (r : error + loc) :
  await_current w = (r, w') -> storage w' = storage w /\ allocates w w'.
Proof.
  unfold await_current, allocates. run_current.
  destruct (currentConfig w) eqn:Hc; [intros [= _ <-]; split; [done|by left]|].
  destruct Storage_async; simpl.
  - destruct (Storage_read_error _); simpl;
      [intros [= _ <-]; split; [done|right; eexists; split; [done|by left]]|].
    destruct (truthy_string _);
      [|intros [= _ <-]; split; [done|right; eexists; split; [done|by left]]].
    destruct (truthy _);
      [|intros [= _ <-]; split; [done|right; eexists; split; [done|by left]]].
    simpl. rewrite lookup_app_r by lia. rewrite Nat.sub_diag. simpl.
    intros [= _ <-]. split; [done|]. right. simpl. eexists. split; [|by right].
    rewrite insert_app_r_alt by lia. by rewrite Nat.sub_diag.
  - destruct (truthy_string _);
      [|intros [= _ <-]; split; [done|right; eexists; split; [done|by left]]].
    destruct (truthy _);
      [|intros [= _ <-]; split; [done|right; eexists; split; [done|by left]]].
    simpl. rewrite lookup_app_r by lia. rewrite Nat.sub_diag. simpl.
    intros [= _ <-]. split; [done|]. right. simpl. eexists. split; [|by right].
    rewrite insert_app_r_alt by lia. by rewrite Nat.sub_diag.
Qed.

Lemma await_get_allocates `{Host} (w w' : World) (r : error + loc) :
  await_get w = (r, w') ->
  (forall p, p <> Storage_generatePath CURRENT_CONFIG_KEY ->
     storage w' !! p = storage w !! p)
  /\ allocates w w'.
Proof.
  unfold await_get, allocates. rewrite get_is_get_promise.
  destruct (REST_response "GET" "config" (VObj []) (VObj []))
    as [e|response] eqn:Hrest.
  { unfold get_promise. simpl. rewrite Hrest.
    intros [= _ <-]. split; [done|by left]. }
  destruct (truthy response && truthy (get_prop response "params")) eqn:Hval.
  - apply andb_prop in Hval as [Hresp Hparams].
    rewrite (settle_get_promise _ response Hrest Hresp Hparams).
    destruct (fst (fill _ _ _)).
    + destruct (Storage_write_error _ _); intros [= _ <-]; simpl.
      * split; [done|]. right. eexists. split; [reflexivity|by right].
      * split; [intros p Hp; by apply lookup_insert_ne|].
        right. eexists. split; [reflexivity|by right].
    + intros [= _ <-]. simpl. split; [done|].
      right. eexists. split; [reflexivity|by left].
  - unfold get_promise. simpl. rewrite Hrest, (get_callback_invalid _ _ Hval).
    intros [= _ <-]. split; [done|by left].
Qed.

Lemma allocates_heap_extends (w w' : World) :
  allocates w w' -> heap_extends (heap w) (heap w').
Proof. intros [[-> _] | (a & -> & _)]; [by left | right; by exists a]. Qed.

Lemma await_current_heap `{Host} (w w' : World) (r : error + loc) :
  await_current w = (r, w') -> heap_extends (heap w) (heap w').
Proof.
  intros Hrun. apply allocates_heap_extends.
  by apply (await_current_allocates w w' r).
Qed.

Lemma await_get_heap `{Host} (w w' : World) (r : error + loc) :
  await_get w = (r, w') -> heap_extends (heap w) (heap w').
Proof.
  intros Hrun. apply allocates_heap_extends.
  by apply (await_get_allocates w w' r).
Qed.

(** ** The escaped-value cache is derived state *)

Lemma empty_cache_consistent `{Host} (a : object) :
  escaped_consistent {| attributes := a; _escapedAttributes := ∅ |}.
Proof. intros attr html. simpl. by rewrite lookup_empty. Qed.

Lemma heap_extends_consistent `{Host} (w w' : World) :
  heap_extends (heap w) (heap w') ->
  World_consistent w -> World_consistent w'.
Proof.
  intros [Heq | [a Heq]] Hw l o; rewrite Heq; [apply Hw|].
  intros [Hl | [_ Hl]]%lookup_app_Some; [by apply (Hw l)|].
  destruct (l - length (heap w)); simpl in Hl; [|by rewrite lookup_nil in Hl].
  injection Hl as <-. apply empty_cache_consistent.
Qed.

Lemma insert_consistent `{Host} (o : ParseConfig) (attr html : string) :
  escaped_consistent o ->
  escaped_form (read (attributes o) attr) = inr html ->
  escaped_consistent
    {| attributes := attributes o;
       _escapedAttributes := <[attr := html]> (_escapedAttributes o) |}.
Proof.
  intros Hcons Hform attr' html'. simpl. rewrite lookup_insert.
  destruct (decide (attr = attr')) as [<- |]; [congruence|]. apply Hcons.
Qed.

Lemma escape_consistent `{Host} (w w' : World) (this : loc) (attr : string)
    (r : result member) :
  ParseConfig.escape this attr w = (r, w') ->
  World_consistent w -> World_consistent w'.
Proof.
  intros [-> | (o & html & Ho & Hform & ->)]%escape_cases Hw; [exact Hw|].
  intros l o' Hl. rewrite escape_update_heap in Hl.
  apply list_lookup_insert_Some in Hl as [(<- & <- & _) | (_ & Hl)];
    [|by apply (Hw l)].
  apply insert_consistent; [by apply (Hw this)|exact Hform].
Qed.

(** The escaped values depend on the runtime and the utilities, not on
    how the backends answer. *)
Lemma answering_consistent `{Host} (b : Backend) (w : World) :
  World_consistent (H := answering b H) w <-> World_consistent w.
Proof. reflexivity. Qed.

(** X20: every world the program can bring about, however the backends
    have answered along the way, keeps the escaped-value caches in step
    with the attributes. *)
Lemma reachable_consistent `{Host} (w : World) :
  reachable w -> World_consistent w.
Proof.
  induction 1 as [s | w w' this attr r _ IH Hrun | w w' this attr r _ IH Hrun
                  | w w' b r _ IH Hrun | w w' b r _ IH Hrun].
  - intros l o Hl. simpl in Hl. by rewrite lookup_nil in Hl.
  - by rewrite (get_preserves_world w w' this attr r Hrun).
  - by apply (escape_consistent w w' this attr r).
  - apply (heap_extends_consistent w); [|exact IH].
    by apply (await_current_heap (H := answering b H) w w' r).
  - apply (heap_extends_consistent w); [|exact IH].
    by apply (await_get_heap (H := answering b H) w w' r).
Qed.

(** ** Concrete runs *)

Import Run.

Lemma reference_parse_a1 :
  Reference.parse snapshot_a1 = Some (VObj [("a", VNum 1)]).
Proof. vm_compute. reflexivity. Qed.

(** [JSON.parse] makes a member named [__proto__] an own property of
    the object it builds. *)
Lemma reference_parse_proto :
  Reference.parse json_proto = Some (VObj params_proto).
Proof. vm_compute. reflexivity. Qed.

(** C1, as stated, fails: when the params object has a field named
    [__proto__] (which [JSON.parse] creates as an own property), the
    assignment in the loop of [get()] goes to the accessor of
    [Object.prototype], which drops the number 5; [get("__proto__")] on
    the config that [get()] resolves with is not the decoded field. *)
Lemma get_drops_proto_field :
  ~ get_keeps_every_field
      (H := Reference.host false (inr response_proto) None)
      (initial_World ∅) params_proto.
Proof.
  intros (config & w2 & Hrun & Hall).
  destruct (Hall "__proto__" (VNum 5) eq_refl) as (d & Hd & Hget).
  vm_compute in Hrun. injection Hrun as <- <-.
  vm_compute in Hd. injection Hd as <-.
  vm_compute in Hget. discriminate.
Qed.

(** The same run: the config has no attribute of its own, and
    [get("__proto__")] yields the prototype of its attributes object. *)
Lemma get_proto_run :
  exists w2,
    await_get (H := Reference.host false (inr response_proto) None)
      (initial_World ∅) = (inr 0, w2)
    /\ heap w2 !! 0 = Some empty_ParseConfig
    /\ ParseConfig.get (H := Reference.host false (inr response_proto) None)
         0 "__proto__" w2
       = (Normal (BuiltinPrototype ObjectPrototype), w2).
Proof.
  eexists. split; [vm_compute; reflexivity|]. split; reflexivity.
Qed.


(** The same run, step by step: both calls return the empty string, and
    the spy counts one call of the escaping function after the first and
    two after the second. *)
Lemma escape_blank_run :
  exists w1 w2,
    ParseConfig.escape (H := Reference.host false (inr response_blank) None)
      0 "a" fetched_blank = (Normal (Data (VStr EmptyString)), w1)
    /\ ParseConfig.escape (H := Reference.host false (inr response_blank) None)
         0 "a" w1 = (Normal (Data (VStr EmptyString)), w2)
    /\ escape_count fetched_blank = 0
    /\ escape_count w1 = 1
    /\ escape_count w2 = 2.
Proof.
  eexists. eexists. split; [vm_compute; reflexivity|].
  split; [vm_compute; reflexivity|]. repeat split.
Qed.

(** C5, as stated, fails: the snapshot [[1,2]] is the JSON of a value
    that is not a JSON object, and [current()] builds from it a config
    whose attributes are the array. *)
Lemma array_snapshot_is_adopted :
  ~ non_object_snapshot_gives_empty
      (H := Reference.host false offline None) (stored "[1,2]").
Proof.
  intros Hclaim.
  destruct (Hclaim "[1,2]" (VArr [VNum 1; VNum 2]))
    as (config & w' & Hrun & Ho).
  - vm_compute. reflexivity.
  - vm_compute. reflexivity.
  - reflexivity.
  - vm_compute in Hrun. injection Hrun as <- <-.
    vm_compute in Ho. discriminate.
Qed.

(** The same run: the config is cached, and [get("0")] on it is 1. *)
Lemma array_snapshot_run :
  exists w',
    DefaultController.current (H := Reference.host false offline None)
      (stored "[1,2]") = (Normal (Sync 0), w')
    /\ currentConfig w' = Some 0
    /\ ParseConfig.get (H := Reference.host false offline None) 0 "0" w'
       = (Normal (VNum 1), w').
Proof.
  eexists. split; [vm_compute; reflexivity|]. split; reflexivity.
Qed.


(** The same run: the attribute is null and [escape] returns the
    function, leaving the world as it was. *)
Lemma escape_constructor_run :
  ParseConfig.get (H := Reference.host false (inr response_shadow) None)
    0 "constructor" fetched_shadow = (Normal VNull, fetched_shadow)
  /\ ParseConfig.escape (H := Reference.host false (inr response_shadow) None)
       0 "constructor" fetched_shadow
     = (Normal (BuiltinMethod ObjectPrototype "constructor"), fetched_shadow).
Proof. split; reflexivity. Qed.

(** C9, as stated, fails: the config fetched from
    [{ params: { a: 1, b: "x" } }] has no attribute [constructor], and
    [get("constructor")] returns what its attributes object inherits
    under that name, the function [Object]. *)
Lemma get_constructor_not_undefined :
  ~ absent_reads_undefined
      (H := Reference.host true (inr response_ab) None)
      fetched_ab 0 "constructor".
Proof.
  intros Hclaim.
  specialize (Hclaim {| attributes := VObj params_ab;
                        _escapedAttributes := ∅ |}).
  vm_compute in Hclaim. specialize (Hclaim eq_refl eq_refl). discriminate.
Qed.

Lemma reference_stringify_ab :
  Reference.stringify (VObj params_ab) = json_ab.
Proof. vm_compute. reflexivity. Qed.

(** A run of the amended C1: the backend answers
    [{ params: { a: 1, b: "x" } }]. *)
Lemma get_fetches_caches_persists_witness :
  exists w2,
    await_get (H := Reference.host true (inr response_ab) None)
      (initial_World ∅) = (inr 0, w2)
    /\ ParseConfig.get (H := Reference.host true (inr response_ab) None)
         0 "a" w2 = (Normal (VNum 1), w2)
    /\ ParseConfig.get (H := Reference.host true (inr response_ab) None)
         0 "b" w2 = (Normal (VStr "x"), w2)
    /\ currentConfig w2 = Some 0
    /\ storage w2 !! Reference.generatePath CURRENT_CONFIG_KEY = Some json_ab.
Proof.
  destruct (get_fetches_caches_persists
              (H := Reference.host true (inr response_ab) None)
              (initial_World ∅) [("params", VObj params_ab)] params_ab)
    as (a & k0 & k1 & w1 & w2 & _ & _ & _ & _ & _ & Hrun & _ & Ho & Hin
        & _ & Hcache & Hstore & _).
  - reflexivity.
  - reflexivity.
  - intros k v _. exists v. reflexivity.
  - reflexivity.
  - exists w2. split; [exact Hrun|].
    destruct (Hin "a" (VNum 1)) as (da & Hda & Ha); [done|reflexivity|].
    destruct (Hin "b" (VStr "x")) as (db & Hdb & Hb); [done|reflexivity|].
    injection Hda as <-. injection Hdb as <-.
    split; [exact Ha|]. split; [exact Hb|]. split; [exact Hcache|].
    rewrite Hstore. simpl. rewrite lookup_insert_eq. reflexivity.
Defined.

(** A run of C2: the backend answers [{ result: true }]. *)
Lemma get_invalid_response_rejects_witness :
  exists w',
    await_get (H := Reference.host false (inr response_other) None) fetched_ab
    = (inl (ParseError INVALID_JSON "Config JSON response invalid."), w')
    /\ currentConfig w' = Some 0.
Proof.
  destruct (get_invalid_response_rejects
              (H := Reference.host false (inr response_other) None)
              fetched_ab response_other)
    as (w' & Hrun & Hcache & _).
  - reflexivity.
  - vm_compute. reflexivity.
  - exists w'. split; [exact Hrun|]. rewrite Hcache. vm_compute. reflexivity.
Defined.

(** A run of C3: the storage is full. *)
Lemma get_write_failure_rejects_witness :
  exists w2,
    await_get (H := Reference.host false (inr response_ab) (Some quota))
      (initial_World ∅) = (inl quota, w2)
    /\ currentConfig w2 = Some 0
    /\ ParseConfig.get
         (H := Reference.host false (inr response_ab) (Some quota))
         0 "a" w2 = (Normal (VNum 1), w2)
    /\ storage w2 = ∅.
Proof.
  destruct (get_write_failure_rejects
              (H := Reference.host false (inr response_ab) (Some quota))
              (initial_World ∅) [("params", VObj params_ab)] params_ab quota)
    as (a & w2 & Hrun & Hcache & _ & Ho & Hin & _ & Hstore).
  - reflexivity.
  - reflexivity.
  - intros k v _. exists v. reflexivity.
  - reflexivity.
  - exists w2.
    destruct (Hin "a" (VNum 1)) as (da & Hda & Ha); [done|reflexivity|].
    injection Hda as <-. by repeat split.
Defined.


(** A run of the amended C5: the stored snapshot is not JSON. *)
Lemma current_unusable_snapshot_empty_witness :
  exists config w',
    DefaultController.current (H := Reference.host false offline None)
      (stored "{oops") = (Normal (Sync config), w')
    /\ heap w' !! config = Some empty_ParseConfig
    /\ heap (stored "{oops") !! config = None.
Proof.
  apply (current_unusable_snapshot_empty
           (H := Reference.host false offline None) (stored "{oops")).
  - reflexivity.
  - reflexivity.
  - right. left. exists "{oops". split; vm_compute; reflexivity.
Defined.

(** A run of C6 on the reference host. *)
Lemma current_loads_snapshot_witness :
  exists config w',
    DefaultController.current (H := Reference.host false offline None)
      (stored snapshot_a1) = (Normal (Sync config), w')
    /\ ParseConfig.get (H := Reference.host false offline None)
         config "a" w' = (Normal (VNum 1), w')
    /\ currentConfig w' = Some config.
Proof.
  apply (current_loads_snapshot
           (H := Reference.host false offline None) (stored snapshot_a1)).
  - reflexivity.
  - reflexivity.
  - vm_compute. reflexivity.
  - vm_compute. reflexivity.
  - reflexivity.
Defined.

(** A run of C7: the storage is asynchronous, the cache is populated. *)
Lemma current_returns_cached_witness :
  DefaultController.current (H := Reference.host true (inr response_ab) None)
    fetched_ab = (Normal (Sync 0), fetched_ab).
Proof.
  apply (current_returns_cached
           (H := Reference.host true (inr response_ab) None) fetched_ab 0).
  vm_compute. reflexivity.
Defined.


(** A run of the amended C9: the fetched config has no attribute [c]. *)
Lemma get_absent_attribute_witness :
  ParseConfig.get (H := Reference.host true (inr response_ab) None)
    0 "c" fetched_ab = (Normal (Data VUndefined), fetched_ab).
Proof.
  apply (get_absent_attribute
           (H := Reference.host true (inr response_ab) None) fetched_ab 0
           {| attributes := VObj params_ab; _escapedAttributes := ∅ |} "c").
  - vm_compute. reflexivity.
  - vm_compute. reflexivity.
  - vm_compute. reflexivity.
Defined.

(** A run of C10: an asynchronous storage that holds the JSON of a
    number; the third call of [current()]. *)
Lemma unusable_snapshot_not_cached_witness :
  exists after,
    await_current (H := Reference.host true offline None)
      (current_times (H := Reference.host true offline None) 2 (stored "42"))
    = (inr 2, after)
    /\ heap after !! 2 = Some empty_ParseConfig
    /\ currentConfig after = None
    /\ storage_reads (calls after)
       = replicate 3 (Reference.generatePath CURRENT_CONFIG_KEY).
Proof.
  destruct (unusable_snapshot_not_cached
              (H := Reference.host true offline None) (stored "42"))
    with (n := 2) as (after & Hrun & _ & Ho & Hc & Hreads).
  - reflexivity.
  - right. right. left. exists "42", (VNum 42).
    repeat split; vm_compute; reflexivity.
  - reflexivity.
  - by exists after.
Defined.

(** * Further properties *)

(** ** [get()]: failures *)

(** X1: when the request itself fails, [get()] rejects with that failure;
    no config is built, the cache and the storage are as before and the
    Storage controller is not called. *)
Theorem get_request_failure_propagates `{Host} (w : World) (e : error) :
  REST_response "GET" "config" (VObj []) (VObj []) = inl e ->
  exists w',
    await_get w = (inl e, w')
    /\ heap w' = heap w
    /\ currentConfig w' = currentConfig w
    /\ storage w' = storage w
    /\ calls w'
       = (calls w ++ [Call_REST_request "GET" "config" (VObj []) (VObj [])])%list.
Proof.
  intros Hrest. exists (get_requested w). split; [|done].
  unfold await_get. rewrite get_is_get_promise. simpl. by rewrite Hrest.
Qed.

(** X2: a response whose [params] is there but falsy (null, false, 0 or
    the empty string) is refused like one without [params]: INVALID_JSON,
    and nothing but the spy has changed. *)
Theorem get_falsy_params_rejects `{Host} (w : World) (response : value) :
  REST_response "GET" "config" (VObj []) (VObj []) = inr response ->
  truthy (get_prop response "params") = false ->
  exists w',
    await_get w
    = (inl (ParseError INVALID_JSON "Config JSON response invalid."), w')
    /\ heap w' = heap w
    /\ currentConfig w' = currentConfig w
    /\ storage w' = storage w.
Proof.
  intros Hrest Hfalsy. exists (get_requested w). split; [|done].
  unfold await_get. rewrite get_is_get_promise. simpl. rewrite Hrest.
  rewrite get_callback_invalid; [reflexivity|].
  rewrite Hfalsy. apply andb_false_r.
Qed.

(** X3: when [decode] throws on a field of [params], [get()] rejects with
    the error [decode] threw.  The cache is not replaced and the storage
    is neither called nor written: both happen only after the loop. *)
Theorem get_decode_failure_rejects `{Host} (w : World) (response : value) :
  REST_response "GET" "config" (VObj []) (VObj []) = inr response ->
  truthy response = true ->
  truthy (get_prop response "params") = true ->
  let params := get_prop response "params" in
  (exists k e, k ∈ own_keys params /\ decode (get_prop params k) = inl e) ->
  exists k e w',
    k ∈ own_keys params
    /\ decode (get_prop params k) = inl e
    /\ await_get w = (inl e, w')
    /\ currentConfig w' = currentConfig w
    /\ storage w' = storage w
    /\ calls w'
       = (calls w ++ [Call_REST_request "GET" "config" (VObj []) (VObj [])])%list.
Proof.
  intros Hrest Hresp Hparams params Hfail.
  destruct (fill_throws params (own_keys params) Hfail (VObj []))
    as (k & e & Hk & He & Hfst).
  exists k, e. eexists. split; [exact Hk|]. split; [exact He|].
  split.
  { unfold await_get. rewrite get_is_get_promise.
    rewrite (settle_get_promise _ response Hrest Hresp Hparams).
    fold params. rewrite Hfst. reflexivity. }
  done.
Qed.

(** ** [get()]: what it accepts *)

(** X4: [get()] does not ask [params] to be an object.  Any truthy
    [params] is accepted: the config gets one attribute per enumerable
    own property (the indices of an array or of a string, nothing for a
    number or [true]), the property named [__proto__] apart, and the JSON
    of the raw value is stored. *)
Theorem get_accepts_any_truthy_params `{Host} (w : World) (response : value) :
  fetchable response ->
  let params := get_prop response "params" in
  let path := Storage_generatePath CURRENT_CONFIG_KEY in
  let json := JSON_stringify params in
  Storage_write_error path json = None ->
  exists (a : object) w',
    await_get w = (inr (length (heap w)), w')
    /\ heap w' !! length (heap w)
       = Some {| attributes := a; _escapedAttributes := ∅ |}
    /\ (forall k, k ∈ own_keys params -> k <> "__proto__" ->
        exists d,
          decode (get_prop params k) = inr d
          /\ ParseConfig.get (length (heap w)) k w' = (Normal (Data d), w'))
    /\ (forall k, k ∉ own_keys params -> has_own_property (base a) k = false)
    /\ currentConfig w' = Some (length (heap w))
    /\ storage w' = <[path := json]> (storage w).
Proof.
  intros Hfetch params path json Hwrite.
  destruct (fetchable_fill response Hfetch) as (Hfill & Hin & Hout).
  destruct Hfetch as (Hrest & Hresp & Hparams & _).
  pose proof (settle_get_promise (get_requested w) response Hrest Hresp Hparams)
    as Hrun.
  simpl in Hrun. rewrite Hfill in Hrun. fold params path json in Hrun.
  rewrite Hwrite in Hrun. fold params in Hin, Hout.
  set (a := snd (fill params (own_keys params) (VObj []))) in *.
  set (w' := set_storage _ _) in Hrun.
  assert (Ho : heap w' !! length (heap w)
               = Some {| attributes := a; _escapedAttributes := ∅ |})
    by apply lookup_fresh.
  exists a, w'. split; [|split; [|split; [|split; [|split]]]].
  - unfold await_get. rewrite get_is_get_promise. exact Hrun.
  - exact Ho.
  - intros k Hk Hne. destruct (Hin k Hk Hne) as (d & Hd & Hread).
    exists d. split; [exact Hd|].
    rewrite (get_accessor _ _ _ _ k Ho). by rewrite Hread.
  - exact Hout.
  - reflexivity.
  - reflexivity.
Qed.

(** ** [get()] and [current()] together *)

(** X5: once [get()] has settled on a response it accepts, whether it
    resolved or was rejected by a failed storage write, [current()]
    returns at once the very config [get()] built, without a call to the
    storage, and the accessor [get(attr)] of that config gives the decoded
    fields, the one named [__proto__] apart. *)
Theorem get_then_current_same_config `{Host} (w : World) (response : value) :
  fetchable response ->
  let params := get_prop response "params" in
  let config := length (heap w) in
  exists r w',
    await_get w = (r, w')
    /\ DefaultController.current w' = (Normal (Sync config), w')
    /\ forall k d, k ∈ own_keys params -> k <> "__proto__" ->
         decode (get_prop params k) = inr d ->
         ParseConfig.get config k w' = (Normal (Data d), w').
Proof.
  intros Hfetch params config.
  destruct (fetchable_fill response Hfetch) as (Hfill & Hin & _).
  destruct Hfetch as (Hrest & Hresp & Hparams & _).
  pose proof (settle_get_promise (get_requested w) response Hrest Hresp Hparams)
    as Hrun.
  simpl in Hrun. rewrite Hfill in Hrun. fold params in Hrun, Hin.
  set (a := snd (fill params (own_keys params) (VObj []))) in *.
  assert (Hget : forall w',
    heap w' !! config = Some {| attributes := a; _escapedAttributes := ∅ |} ->
    forall k d, k ∈ own_keys params -> k <> "__proto__" ->
      decode (get_prop params k) = inr d ->
      ParseConfig.get config k w' = (Normal (Data d), w')).
  { intros w' Ho k d Hk Hne Hd. destruct (Hin k Hk Hne) as (d' & Hd' & Hread).
    rewrite Hd in Hd'. injection Hd' as <-.
    rewrite (get_accessor _ _ _ _ k Ho). by rewrite Hread. }
  destruct (Storage_write_error _ _) as [e|]; eexists; eexists;
    (split; [unfold await_get; rewrite get_is_get_promise; exact Hrun|]);
    (split; [reflexivity|]); apply Hget; apply lookup_fresh.
Qed.

(** X6: what [get()] persists is what a freshly loaded module starts from.
    When the host's [JSON.parse] reads back what its [JSON.stringify]
    wrote, [current()] in a new module over the same storage builds and
    caches a config whose attributes are [decode] of the whole raw params
    object. *)
Theorem get_then_reload_restores `{Host} (w : World) (response d : value) :
  fetchable response ->
  let params := get_prop response "params" in
  let path := Storage_generatePath CURRENT_CONFIG_KEY in
  let json := JSON_stringify params in
  Storage_write_error path json = None ->
  Storage_read_error path = None ->
  json <> EmptyString ->
  JSON_parse json = Some params ->
  is_object params = true ->
  decode params = inr d ->
  truthy d = true ->
  exists c w' w'',
    await_get w = (inr c, w')
    /\ await_current (initial_World (storage w')) = (inr 0, w'')
    /\ heap w'' !! 0 = Some {| attributes := d; _escapedAttributes := ∅ |}
    /\ currentConfig w'' = Some 0.
Proof.
  intros Hfetch params path json Hwrite Hread Hne Hparse Hobj Hd Ht.
  destruct (fetchable_fill response Hfetch) as (Hfill & _ & _).
  destruct Hfetch as (Hrest & Hresp & Hparams & _).
  pose proof (settle_get_promise (get_requested w) response Hrest Hresp Hparams)
    as Hrun.
  simpl in Hrun. rewrite Hfill in Hrun. fold params path json in Hrun.
  rewrite Hwrite in Hrun.
  eexists. eexists. eexists. split.
  { unfold await_get. rewrite get_is_get_promise. exact Hrun. }
  simpl. split; [|split].
  - eapply (await_current_usable (initial_World _)); eauto.
    simpl. apply lookup_insert_eq.
  - reflexivity.
  - reflexivity.
Qed.

(** X7: two overlapping fetches.  [get()] is called twice before either
    response has arrived; the second response arrives first.  The cache
    ends up naming the config built for the response that arrived last,
    another object than the one built first, and the storage holds the
    JSON of that last response.  The two hosts stand for the backend at
    the two moments. *)
Theorem overlapping_get_last_settled_wins (H1 H2 : Host) (w : World)
    (response1 response2 : value) :
  fetchable (H := H1) response1 ->
  fetchable (H := H2) response2 ->
  let path1 := Storage_generatePath (Host := H1) CURRENT_CONFIG_KEY in
  let json1 := JSON_stringify (Host := H1) (get_prop response1 "params") in
  let path2 := Storage_generatePath (Host := H2) CURRENT_CONFIG_KEY in
  let json2 := JSON_stringify (Host := H2) (get_prop response2 "params") in
  Storage_write_error (Host := H1) path1 json1 = None ->
  Storage_write_error (Host := H2) path2 json2 = None ->
  exists p1 p2 w1 w2 w3 w4 c1 c2,
    DefaultController.get (H := H1) w = (Normal p1, w1)
    /\ DefaultController.get (H := H2) w1 = (Normal p2, w2)
    /\ settle (H := H2) p2 w2 = (inr c2, w3)
    /\ settle (H := H1) p1 w3 = (inr c1, w4)
    /\ currentConfig w3 = Some c2
    /\ currentConfig w4 = Some c1
    /\ c1 <> c2
    /\ heap w4 !! c2 = heap w3 !! c2
    /\ storage w4 !! path1 = Some json1.
Proof.
  intros Hf1 Hf2 path1 json1 path2 json2 Hw1 Hw2.
  set (w1 := get_requested w). set (w2 := get_requested w1).
  destruct (fetchable_fill (H := H1) response1 Hf1) as (Hfill1 & _ & _).
  destruct (fetchable_fill (H := H2) response2 Hf2) as (Hfill2 & _ & _).
  destruct Hf1 as (Hrest1 & Hresp1 & Hparams1 & _).
  destruct Hf2 as (Hrest2 & Hresp2 & Hparams2 & _).
  pose proof (settle_get_promise (H := H2) w2 response2 Hrest2 Hresp2 Hparams2)
    as Hrun2.
  simpl in Hrun2. rewrite Hfill2 in Hrun2. fold path2 json2 in Hrun2.
  rewrite Hw2 in Hrun2.
  set (w3 := set_storage _ _) in Hrun2.
  pose proof (settle_get_promise (H := H1) w3 response1 Hrest1 Hresp1 Hparams1)
    as Hrun1.
  simpl in Hrun1. rewrite Hfill1 in Hrun1. fold path1 json1 in Hrun1.
  rewrite Hw1 in Hrun1.
  exists (get_promise (H := H1)), (get_promise (H := H2)), w1, w2, w3.
  eexists. exists (length (heap w3)), (length (heap w2)).
  split; [reflexivity|]. split; [reflexivity|]. split; [exact Hrun2|].
  split; [exact Hrun1|]. split; [reflexivity|]. split; [reflexivity|].
  split; [|split].
  - unfold w3. simpl. rewrite length_app. simpl. lia.
  - simpl. rewrite lookup_app_l; [reflexivity|].
    unfold w3. simpl. rewrite length_app. simpl. lia.
  - simpl. apply lookup_insert_eq.
Qed.

(** ** [current()] over an asynchronous storage *)

(** X8: a caller that waits for [current()] gets the same from an
    asynchronous storage as from a synchronous one: the same outcome, the
    same objects, the same cache and the same storage. *)
Theorem current_async_resolves_like_sync `{Host} (w : World) :
  Storage_read_error (Storage_generatePath CURRENT_CONFIG_KEY) = None ->
  let async := await_current (H := with_Storage_async true H) w in
  let sync := await_current (H := with_Storage_async false H) w in
  fst async = fst sync
  /\ heap (snd async) = heap (snd sync)
  /\ currentConfig (snd async) = currentConfig (snd sync)
  /\ storage (snd async) = storage (snd sync).
Proof.
  intros Hread async sync. subst async sync.
  unfold await_current. run_current. unfold decodePayload. simpl.
  destruct (currentConfig w); [done|]. simpl. rewrite Hread. simpl.
  destruct (truthy_string _); [|done].
  destruct (truthy _); [|done]. simpl.
  rewrite lookup_app_r by lia. rewrite Nat.sub_diag. done.
Qed.

(** X9: when the asynchronous read fails, the promise of [current()]
    rejects with the failure of the storage; the cache stays empty and
    the storage is as it was. *)
Theorem current_async_read_failure_rejects `{Host} (w : World) (e : error) :
  Storage_async = true ->
  currentConfig w = None ->
  Storage_read_error (Storage_generatePath CURRENT_CONFIG_KEY) = Some e ->
  exists w',
    await_current w = (inl e, w')
    /\ currentConfig w' = None
    /\ storage w' = storage w.
Proof.
  intros Hasync Hnone Hread. unfold await_current. run_current.
  rewrite Hnone, Hasync. simpl. rewrite Hread.
  eexists. split; [reflexivity|]. done.
Qed.

(** ** The instance accessors *)

(** X10: for a name that [Object.prototype] does not define,
    [escape(attr)] of an attribute that is not null calls the [toString]
    of its value.  When that returns, [escape] returns the HTML escaping
    of the string, whether the result comes from the cache or is
    computed, and the cache stays in step with the attributes.  When it
    throws, as it does for a value with a property named [toString],
    [escape] throws the same error and leaves the world as it was. *)
Theorem escape_returns_escaped_value `{Host} (w : World) (this : loc)
    (o : ParseConfig) (attr : string) :
  heap w !! this = Some o ->
  escaped_consistent o ->
  inherited_name attr = false ->
  not_nullish_member (read (attributes o) attr) = true ->
  match call_toString (read (attributes o) attr) with
  | inr str =>
      exists w' o',
        ParseConfig.escape this attr w = (Normal (Data (VStr (escape str))), w')
        /\ heap w' !! this = Some o'
        /\ attributes o' = attributes o
        /\ escaped_consistent o'
  | inl e => ParseConfig.escape this attr w = (Throw e, w)
  end.
Proof.
  intros Ho Hcons Hname Hval.
  assert (Hform : escaped_form (read (attributes o) attr)
                  = match call_toString (read (attributes o) attr) with
                    | inr str => inr (escape str)
                    | inl e => inl e
                    end).
  { unfold escaped_form. by rewrite Hval. }
  destruct (truthy_string_cases (_escapedAttributes o !! attr))
    as [(html & Hc & Hne & Ht) | Hmiss];
    rewrite <- (lookup_escaped_truthy _ _ Hname) in *.
  - apply Hcons in Hc as Hhtml. rewrite Hform in Hhtml.
    destruct (call_toString _) as [e|str]; [discriminate|].
    injection Hhtml as ->. exists w, o.
    rewrite (escape_hit w this o attr Ho Ht).
    rewrite (lookup_escaped_own _ _ Hname), Hc. done.
  - destruct (call_toString _) as [e|str].
    + by apply (escape_throws w this o).
    + eexists. eexists.
      rewrite (escape_miss w this o attr (escape str) Ho Hmiss Hform).
      split; [reflexivity|]. split; [by apply escape_update_lookup|].
      split; [reflexivity|]. by apply insert_consistent.
Qed.

(** X11: [escape(attr)] changes nothing but the entry for [attr] in the
    escaped-value cache of its own instance: the cache, the storage, the
    other objects, the attributes of the instance and its other cached
    entries are as before. *)
Theorem escape_touches_only_its_entry `{Host} (w w' : World) (this : loc)
    (attr : string) (r : result member) :
  ParseConfig.escape this attr w = (r, w') ->
  currentConfig w' = currentConfig w
  /\ storage w' = storage w
  /\ length (heap w') = length (heap w)
  /\ (forall l, l <> this -> heap w' !! l = heap w !! l)
  /\ (forall o, heap w !! this = Some o ->
      exists o',
        heap w' !! this = Some o'
        /\ attributes o' = attributes o
        /\ forall a, a <> attr ->
             _escapedAttributes o' !! a = _escapedAttributes o !! a).
Proof. apply escape_frame. Qed.

(** X12: the config that [new ParseConfig()] creates has no attribute.
    For every name that [Object.prototype] does not define, [get] gives
    undefined and [escape] the empty string, without a call of the
    escaping function.  Under a name that [Object.prototype] defines
    ([constructor], [toString], [__proto__], ...) both give the
    inherited member, which is not undefined, and change nothing. *)
Theorem new_config_is_empty `{Host} (w : World) (attr : string) :
  exists config w1,
    new_ParseConfig w = (Normal config, w1)
    /\ heap w !! config = None
    /\ heap w1 !! config = Some empty_ParseConfig
    /\ (inherited_name attr = false ->
        ParseConfig.get config attr w1 = (Normal (Data VUndefined), w1)
        /\ exists w2,
             ParseConfig.escape config attr w1
             = (Normal (Data (VStr EmptyString)), w2)
             /\ calls w2 = calls w)
    /\ (inherited_name attr = true ->
        exists m,
          m <> Data VUndefined
          /\ ParseConfig.get config attr w1 = (Normal m, w1)
          /\ ParseConfig.escape config attr w1 = (Normal m, w1)).
Proof.
  exists (length (heap w)), (set_heap (heap w ++ [empty_ParseConfig]) w).
  split; [reflexivity|].
  split; [by apply lookup_ge_None|].
  assert (Ho : heap (set_heap (heap w ++ [empty_ParseConfig]) w)
               !! length (heap w) = Some empty_ParseConfig)
    by apply lookup_fresh.
  assert (Hown : has_own_property (VObj []) attr = false).
  { rewrite has_own_property_obj. apply bool_decide_eq_false. by intros [? ?]. }
  split; [exact Ho|]. split.
  - intros Hname.
    assert (Hread : read (VObj []) attr = Data VUndefined).
    { apply read_absent; [exact Hown|]. by rewrite inherits_plain_object. }
    split.
    + rewrite (get_accessor _ _ _ _ attr Ho). by rewrite Hread.
    + eexists. split.
      * apply (escape_miss _ _ _ attr EmptyString Ho).
        -- simpl. by rewrite (lookup_escaped_truthy _ _ Hname), lookup_empty.
        -- change (escaped_form (read (VObj []) attr) = inr EmptyString).
           by rewrite Hread.
      * rewrite escape_update_nullish; [reflexivity|].
        change (not_nullish_member (read (VObj []) attr) = false).
        by rewrite Hread.
  - intros Hname. destruct (lookup_escaped_inherited attr Hname) as [Ht Hne].
    exists (lookup_escaped ∅ attr). split; [exact Hne|]. split.
    + rewrite (get_accessor _ _ _ _ attr Ho). f_equal. f_equal.
      unfold inherited_name in Hname. unfold read, inherited, builtin_member,
        lookup_escaped. simpl. rewrite lookup_empty.
      destruct (String.eqb_spec attr "__proto__") as [-> |]; [reflexivity|].
      simpl in Hname. rewrite Hname.
      unfold own_property. simpl.
      destruct (String.eqb attr "length"); reflexivity.
    + by apply (escape_hit _ _ _ attr Ho).
Qed.

(** ** What no call does *)

Lemma allocates_attributes (w w' : World) (l : loc) (o : ParseConfig) :
  allocates w w' -> heap w !! l = Some o -> heap w' !! l = Some o.
Proof.
  intros [[-> _] | (v & -> & _)] Ho; [done|]. by apply lookup_app_l_Some.
Qed.

Lemma allocates_cache (w w' : World) :
  allocates w w' ->
  is_Some (currentConfig w) -> is_Some (currentConfig w').
Proof.
  intros [[_ ->] | (v & _ & [-> | ->])]; eauto.
Qed.

Lemma allocates_cache_live (w w' : World) :
  allocates w w' -> cache_live w -> cache_live w'.
Proof.
  unfold cache_live.
  intros [[-> ->] | (v & -> & [-> | ->])] Hlive c Hc; [by apply Hlive| |].
  - destruct (Hlive c Hc) as [o Ho]. exists o. by apply lookup_app_l_Some.
  - injection Hc as <-. eexists. apply lookup_fresh.
Qed.

(** What every single call keeps. *)
Lemma api_step_keeps `{Host} (w w' : World) :
  api_step w w' ->
  (forall p, p <> Storage_generatePath CURRENT_CONFIG_KEY ->
     storage w' !! p = storage w !! p)
  /\ (forall l o, heap w !! l = Some o ->
      exists o', heap w' !! l = Some o' /\ attributes o' = attributes o)
  /\ (is_Some (currentConfig w) -> is_Some (currentConfig w'))
  /\ (cache_live w -> cache_live w').
Proof.
  intros [w1 w2 this attr r Hrun | w1 w2 this attr r Hrun
          | w1 w2 r Hrun | w1 w2 r Hrun].
  - apply get_preserves_world in Hrun as ->. repeat split; eauto.
  - destruct (escape_frame _ _ _ _ _ Hrun) as (Hc & Hs & Hlen & Hother & Hthis).
    split; [by rewrite Hs|]. split; [|split].
    + intros l o Ho. destruct (decide (l = this)) as [-> |Hne].
      * destruct (Hthis o Ho) as (o' & Ho' & Ha & _). eauto.
      * exists o. by rewrite Hother.
    + by rewrite Hc.
    + unfold cache_live. rewrite Hc. intros Hlive c Hcc.
      destruct (Hlive c Hcc) as [o Ho].
      destruct (decide (c = this)) as [-> |Hne].
      * destruct (Hthis o Ho) as (o' & Ho' & _). eauto.
      * exists o. by rewrite Hother.
  - destruct (await_current_allocates _ _ _ Hrun) as [Hs Ha].
    split; [by rewrite Hs|]. split; [|split].
    + intros l o Ho. exists o. split; [|done]. by apply (allocates_attributes w1).
    + by apply allocates_cache.
    + by apply allocates_cache_live.
  - destruct (await_get_allocates _ _ _ Hrun) as [Hs Ha].
    split; [exact Hs|]. split; [|split].
    + intros l o Ho. exists o. split; [|done]. by apply (allocates_attributes w1).
    + by apply allocates_cache.
    + by apply allocates_cache_live.
Qed.

(** X13: a config never changes under its holder.  Whatever calls follow,
    on this config or on any other part of the surface, [get(attr)] on a
    config that exists keeps returning what it returned. *)
Theorem attributes_never_change `{Host} (w w' : World) (l : loc)
    (o : ParseConfig) (attr : string) :
  rtc api_step w w' ->
  heap w !! l = Some o ->
  ParseConfig.get l attr w' = (Normal (read (attributes o) attr), w').
Proof.
  intros Hsteps. revert o. induction Hsteps as [w | w w1 w' Hstep _ IH]; intros o Ho.
  - unfold ParseConfig.get, bind, deref, ret. by rewrite Ho.
  - destruct (api_step_keeps w w1 Hstep) as (_ & Hattr & _).
    destruct (Hattr l o Ho) as (o1 & Ho1 & <-). by apply IH.
Qed.

(** X14: the cache is never emptied.  Once it is populated it stays
    populated through every call. *)
Theorem cache_stays_populated `{Host} (w w' : World) :
  rtc api_step w w' ->
  is_Some (currentConfig w) -> is_Some (currentConfig w').
Proof.
  induction 1 as [w | w w1 w' Hstep _ IH]; [done|].
  intros Hc. apply IH. by apply (api_step_keeps w w1).
Qed.

(** X15: no call touches a storage entry other than the one under the
    path of [currentConfig]. *)
Theorem storage_other_paths_untouched `{Host} (w w' : World) (p : string) :
  rtc api_step w w' ->
  p <> Storage_generatePath CURRENT_CONFIG_KEY ->
  storage w' !! p = storage w !! p.
Proof.
  induction 1 as [w | w w1 w' Hstep _ IH]; [done|].
  intros Hp. rewrite (IH Hp). by apply (api_step_keeps w w1).
Qed.

(** X16: [current()], [get(attr)] and [escape(attr)] never write to the
    storage: only [get()] does. *)
Theorem only_get_writes_storage `{Host} (w w' : World) :
  api_step w w' ->
  storage w' <> storage w ->
  exists r, await_get w = (r, w').
Proof.
  intros [w1 w2 this attr r Hrun | w1 w2 this attr r Hrun
          | w1 w2 r Hrun | w1 w2 r Hrun] Hne.
  - apply get_preserves_world in Hrun as ->. done.
  - destruct (escape_frame _ _ _ _ _ Hrun) as (_ & Hs & _). done.
  - destruct (await_current_allocates _ _ _ Hrun) as [Hs _]. done.
  - by exists r.
Qed.

(** X17: in every world the program can bring about, however the
    backends have answered along the way, the cache, when it is
    populated, names a config that exists: [current()] never hands out a
    dangling config. *)
Theorem reachable_cache_live `{Host} (w : World) :
  reachable w -> cache_live w.
Proof.
  induction 1 as [s | w w' this attr r _ IH Hrun | w w' this attr r _ IH Hrun
                  | w w' b r _ IH Hrun | w w' b r _ IH Hrun].
  - intros c Hc. discriminate.
  - by apply (api_step_keeps w w' (api_get w w' this attr r Hrun)).
  - by apply (api_step_keeps w w' (api_escape w w' this attr r Hrun)).
  - by apply (api_step_keeps (H := answering b H) w w'
                (api_current (H := answering b H) w w' r Hrun)).
  - by apply (api_step_keeps (H := answering b H) w w'
                (api_static_get (H := answering b H) w w' r Hrun)).
Qed.

(** ** [current()]: hydration *)

(** X18: [current()] hydrates from the storage at most once.  After a call
    that found a usable snapshot, the next call returns the same config
    at once and changes nothing, without a call to the storage, also when
    the storage is asynchronous. *)
Theorem current_hydrates_once `{Host} (w : World) (s : string) (v d : value) :
  currentConfig w = None ->
  storage w !! Storage_generatePath CURRENT_CONFIG_KEY = Some s ->
  s <> EmptyString ->
  JSON_parse s = Some v -> is_object v = true ->
  decode v = inr d -> truthy d = true ->
  Storage_read_error (Storage_generatePath CURRENT_CONFIG_KEY) = None ->
  exists config w1,
    await_current w = (inr config, w1)
    /\ heap w1 !! config = Some {| attributes := d; _escapedAttributes := ∅ |}
    /\ DefaultController.current w1 = (Normal (Sync config), w1).
Proof.
  intros Hnone Hs Hne Hp Hv Hd Ht Hread.
  exists (length (heap w)), (current_adopt d w).
  split; [by apply (await_current_usable w s v d)|].
  split; [apply lookup_fresh|]. reflexivity.
Qed.

Lemma api_steps_keep_objects `{Host} (w w' : World) (l : loc) (o : ParseConfig) :
  rtc api_step w w' ->
  heap w !! l = Some o ->
  exists o', heap w' !! l = Some o' /\ attributes o' = attributes o.
Proof.
  intros Hsteps. revert o.
  induction Hsteps as [w | w w1 w' Hstep _ IH]; intros o Ho; [eauto|].
  destruct (api_step_keeps w w1 Hstep) as (_ & Hattr & _).
  destruct (Hattr l o Ho) as (o1 & Ho1 & <-). by apply IH.
Qed.

(** X19: a pending [current()] overrides the cache when it settles.  With
    an asynchronous storage and an empty cache, [current()] returns a
    promise; if other calls run before the read completes, and the
    snapshot then read is usable, the callback makes the config that
    [current()] created the cached one, whatever the cache had come to
    hold in between. *)
Theorem pending_current_overrides_cache `{Host} (w : World) :
  Storage_async = true ->
  currentConfig w = None ->
  exists p w1,
    DefaultController.current w = (Normal (Async p), w1)
    /\ forall (w2 : World) (s : string) (v d : value),
        rtc api_step w1 w2 ->
        Storage_read_error (Storage_generatePath CURRENT_CONFIG_KEY) = None ->
        storage w2 !! Storage_generatePath CURRENT_CONFIG_KEY = Some s ->
        s <> EmptyString ->
        JSON_parse s = Some v -> is_object v = true ->
        decode v = inr d -> truthy d = true ->
        exists w3 o,
          settle p w2 = (inr (length (heap w)), w3)
          /\ currentConfig w3 = Some (length (heap w))
          /\ heap w3 !! length (heap w) = Some o
          /\ attributes o = d.
Proof.
  intros Hasync Hnone. eexists. eexists. split.
  { run_current. rewrite Hnone, Hasync. reflexivity. }
  intros w2 s v d Hsteps Hread Hs Hne Hp Hv Hd Ht.
  destruct (api_steps_keep_objects _ w2 (length (heap w)) empty_ParseConfig Hsteps)
    as (o0 & Ho0 & _); [apply lookup_fresh|].
  simpl. rewrite Hread, Hs. simpl.
  destruct (String.eqb_spec s EmptyString); [contradiction|]. simpl.
  rewrite (decodePayload_usable s v d Hp Hv Hd), Ht.
  rewrite Ho0. simpl.
  eexists. eexists. split; [reflexivity|]. split; [reflexivity|].
  split.
  { simpl. apply list_lookup_insert_eq. eapply lookup_lt_Some; eauto. }
  reflexivity.
Qed.

(** ** Further concrete runs *)

Import Cases.

(** The backend is offline. *)
Lemma get_request_failure_propagates_witness :
  exists w',
    await_get (H := Reference.host false offline None) fetched_ab
    = (inl (Failure "offline"), w')
    /\ currentConfig w' = Some 0
    /\ storage w' = storage fetched_ab.
Proof.
  destruct (get_request_failure_propagates
              (H := Reference.host false offline None) fetched_ab
              (Failure "offline") eq_refl)
    as (w' & Hrun & _ & Hc & Hs & _).
  exists w'. split; [exact Hrun|]. split; [|exact Hs].
  rewrite Hc. vm_compute. reflexivity.
Defined.

(** The backend answers [{ params: 0 }]. *)
Lemma get_falsy_params_rejects_witness :
  exists w',
    await_get (H := Reference.host false (inr response_zero) None)
      (initial_World ∅)
    = (inl (ParseError INVALID_JSON "Config JSON response invalid."), w')
    /\ currentConfig w' = None
    /\ storage w' = ∅.
Proof.
  destruct (get_falsy_params_rejects
              (H := Reference.host false (inr response_zero) None)
              (initial_World ∅) response_zero eq_refl eq_refl)
    as (w' & Hrun & _ & Hc & Hs).
  by exists w'.
Defined.

(** The backend answers [{ params: { a: 1, b: "bad", c: 3 } }] and
    [decode] throws on ["bad"]. *)
Lemma get_decode_failure_rejects_witness :
  exists w',
    await_get (H := host_decoding picky_decode false (inr response_bad))
      (initial_World ∅)
    = (inl (Failure "cannot decode"), w')
    /\ currentConfig w' = None
    /\ storage w' = ∅.
Proof.
  destruct (get_decode_failure_rejects
              (H := host_decoding picky_decode false (inr response_bad))
              (initial_World ∅) response_bad eq_refl eq_refl eq_refl)
    as (k & e & w' & Hk & He & Hrun & Hc & Hs & _).
  - exists "b", (Failure "cannot decode"). split; [|reflexivity].
    vm_compute. right. left.
  - exists w'. split; [|by split].
    rewrite Hrun. f_equal. f_equal.
    apply elem_of_cons in Hk as [-> | Hk]; [vm_compute in He; discriminate|].
    apply elem_of_cons in Hk as [-> | Hk]; [vm_compute in He; congruence|].
    apply elem_of_cons in Hk as [-> | Hk]; [vm_compute in He; discriminate|].
    by apply elem_of_nil in Hk.
Defined.

(** The backend answers [{ params: [10, 20] }]. *)
Lemma get_accepts_any_truthy_params_witness :
  exists w',
    await_get (H := Reference.host false (inr response_array) None)
      (initial_World ∅) = (inr 0, w')
    /\ ParseConfig.get (H := Reference.host false (inr response_array) None)
         0 "1" w' = (Normal (VNum 20), w')
    /\ storage w' !! Reference.generatePath CURRENT_CONFIG_KEY = Some "[10,20]".
Proof.
  destruct (get_accepts_any_truthy_params
              (H := Reference.host false (inr response_array) None)
              (initial_World ∅) response_array)
    as (a & w' & Hrun & Ho & Hin & Hout & _ & Hs).
  - split; [reflexivity|]. split; [reflexivity|]. split; [reflexivity|].
    intros k _. eexists. reflexivity.
  - reflexivity.
  - exists w'. split; [exact Hrun|].
    destruct (Hin "1") as (d & Hd & Hget).
    { vm_compute. right. left. }
    { discriminate. }
    injection Hd as <-. split; [exact Hget|].
    rewrite Hs. simpl. apply lookup_insert_eq.
Defined.

(** The storage is full: [get()] is rejected, and [current()] still
    returns the config it built. *)
Lemma get_then_current_same_config_witness :
  exists w',
    await_get (H := Reference.host true (inr response_ab) (Some quota))
      (initial_World ∅) = (inl quota, w')
    /\ DefaultController.current
         (H := Reference.host true (inr response_ab) (Some quota)) w'
       = (Normal (Sync 0), w')
    /\ ParseConfig.get
         (H := Reference.host true (inr response_ab) (Some quota))
         0 "b" w' = (Normal (VStr "x"), w').
Proof.
  destruct (get_then_current_same_config
              (H := Reference.host true (inr response_ab) (Some quota))
              (initial_World ∅) response_ab)
    as (r & w' & Hrun & Hcur & Hget).
  - split; [reflexivity|]. split; [reflexivity|]. split; [reflexivity|].
    intros k _. eexists. reflexivity.
  - exists w'. split; [|split].
    + rewrite Hrun. f_equal.
      assert (Hr : fst (await_get
                     (H := Reference.host true (inr response_ab) (Some quota))
                     (initial_World ∅)) = inl quota)
        by (vm_compute; reflexivity).
      by rewrite Hrun in Hr.
    + exact Hcur.
    + apply Hget; [|discriminate|reflexivity]. vm_compute. right. left.
Defined.

(** Fetch [{ params: { a: 1, b: "x" } }], then load the module anew. *)
Lemma get_then_reload_restores_witness :
  exists c w' w'',
    await_get (H := Reference.host false (inr response_ab) None)
      (initial_World ∅) = (inr c, w')
    /\ await_current (H := Reference.host false (inr response_ab) None)
         (initial_World (storage w')) = (inr 0, w'')
    /\ heap w'' !! 0
       = Some {| attributes := VObj params_ab; _escapedAttributes := ∅ |}
    /\ currentConfig w'' = Some 0.
Proof.
  apply (get_then_reload_restores
           (H := Reference.host false (inr response_ab) None)
           (initial_World ∅) response_ab (VObj params_ab)).
  - split; [reflexivity|]. split; [reflexivity|]. split; [reflexivity|].
    intros k _. eexists. reflexivity.
  - reflexivity.
  - reflexivity.
  - vm_compute. discriminate.
  - vm_compute. reflexivity.
  - reflexivity.
  - reflexivity.
  - reflexivity.
Defined.

(** Two fetches overlap: the one for [{ params: { a: 1, b: "x" } }] is
    issued first and answered last. *)
Lemma overlapping_get_last_settled_wins_witness :
  exists p1 p2 w1 w2 w3 w4 c1 c2,
    DefaultController.get (H := Reference.host false (inr response_ab) None)
      (initial_World ∅) = (Normal p1, w1)
    /\ DefaultController.get
         (H := Reference.host false (inr response_html) None) w1
       = (Normal p2, w2)
    /\ settle (H := Reference.host false (inr response_html) None) p2 w2
       = (inr c2, w3)
    /\ settle (H := Reference.host false (inr response_ab) None) p1 w3
       = (inr c1, w4)
    /\ currentConfig w3 = Some c2
    /\ currentConfig w4 = Some c1
    /\ c1 <> c2
    /\ heap w4 !! c2 = heap w3 !! c2
    /\ storage w4 !! Reference.generatePath CURRENT_CONFIG_KEY = Some json_ab.
Proof.
  apply (overlapping_get_last_settled_wins
           (Reference.host false (inr response_ab) None)
           (Reference.host false (inr response_html) None)
           (initial_World ∅) response_ab response_html).
  - split; [reflexivity|]. split; [reflexivity|]. split; [reflexivity|].
    intros k _. eexists. reflexivity.
  - split; [reflexivity|]. split; [reflexivity|]. split; [reflexivity|].
    intros k _. eexists. reflexivity.
  - reflexivity.
  - reflexivity.
Defined.

(** A storage that holds the snapshot [{"a":1}], read both ways. *)
Lemma current_async_resolves_like_sync_witness :
  fst (await_current (H := Reference.host true offline None)
         (stored snapshot_a1))
  = fst (await_current (H := Reference.host false offline None)
           (stored snapshot_a1))
  /\ fst (await_current (H := Reference.host true offline None)
            (stored snapshot_a1)) = inr 0.
Proof.
  split; [|vm_compute; reflexivity].
  apply (current_async_resolves_like_sync
           (H := Reference.host false offline None) (stored snapshot_a1)).
  reflexivity.
Defined.

(** An asynchronous storage whose reads fail. *)
Lemma current_async_read_failure_rejects_witness :
  exists w',
    await_current (H := host_unreadable quota) (stored snapshot_a1)
    = (inl quota, w')
    /\ currentConfig w' = None
    /\ storage w' = storage (stored snapshot_a1).
Proof.
  apply (current_async_read_failure_rejects
           (H := host_unreadable quota) (stored snapshot_a1) quota);
    reflexivity.
Defined.

(** The attribute [t] of the fetched config is ["<b>"]. *)
Lemma escape_returns_escaped_value_witness :
  exists w',
    ParseConfig.escape (H := Reference.host false (inr response_html) None)
      0 "t" fetched_html = (Normal (Data (VStr "&lt;b&gt;")), w').
Proof.
  pose proof (escape_returns_escaped_value
                (H := Reference.host false (inr response_html) None)
                fetched_html 0
                {| attributes := VObj [("t", VStr "<b>")];
                   _escapedAttributes := ∅ |} "t") as Hx.
  simpl in Hx. destruct Hx as (w' & o' & Hrun & _).
  - vm_compute. reflexivity.
  - apply empty_cache_consistent.
  - reflexivity.
  - reflexivity.
  - by exists w'.
Defined.

(** Escaping [t] leaves the rest as it was. *)
Lemma escape_touches_only_its_entry_witness :
  let w' :=
    snd (ParseConfig.escape
           (H := Reference.host false (inr response_html) None)
           0 "t" fetched_html) in
  currentConfig w' = Some 0
  /\ storage w' = storage fetched_html
  /\ length (heap w') = 1.
Proof.
  intros w'.
  destruct (escape_touches_only_its_entry
              (H := Reference.host false (inr response_html) None)
              fetched_html w' 0 "t"
              (fst (ParseConfig.escape
                      (H := Reference.host false (inr response_html) None)
                      0 "t" fetched_html)))
    as (Hc & Hs & Hl & _).
  - symmetry. apply surjective_pairing.
  - rewrite Hc, Hs, Hl. repeat split.
Defined.

(** A new config in a freshly loaded module, asked for [a] and for
    [constructor]. *)
Lemma new_config_is_empty_witness :
  exists w1,
    new_ParseConfig (initial_World ∅) = (Normal 0, w1)
    /\ ParseConfig.get (H := runtime) 0 "a" w1 = (Normal (Data VUndefined), w1)
    /\ (exists m,
          m <> Data VUndefined
          /\ ParseConfig.escape (H := runtime) 0 "constructor" w1
             = (Normal m, w1)).
Proof.
  destruct (new_config_is_empty (H := runtime) (initial_World ∅) "a")
    as (config & w1 & Hnew & _ & _ & Ha & _).
  destruct (new_config_is_empty (H := runtime) (initial_World ∅) "constructor")
    as (config' & w1' & Hnew' & _ & _ & _ & Hc).
  rewrite Hnew in Hnew'. injection Hnew' as <- <-.
  injection Hnew as <- <-.
  eexists. split; [reflexivity|]. split.
  - apply Ha. reflexivity.
  - destruct (Hc eq_refl) as (m & Hm & _ & Hesc). by exists m.
Defined.

Lemma fetched_ab_later :
  rtc (api_step (H := Reference.host true (inr response_ab) None))
    fetched_ab later.
Proof.
  eapply rtc_l.
  - eapply api_escape with (this := 0) (attr := "b"). apply surjective_pairing.
  - apply rtc_once. eapply api_static_get. apply surjective_pairing.
Qed.

(** After an [escape] and a second fetch, the first config still has its
    attributes. *)
Lemma attributes_never_change_witness :
  ParseConfig.get (H := Reference.host true (inr response_ab) None)
    0 "a" later = (Normal (VNum 1), later)
  /\ currentConfig later = Some 1.
Proof.
  split; [|vm_compute; reflexivity].
  apply (attributes_never_change
           (H := Reference.host true (inr response_ab) None) fetched_ab later 0
           {| attributes := VObj params_ab; _escapedAttributes := ∅ |} "a").
  - apply fetched_ab_later.
  - vm_compute. reflexivity.
Defined.

Lemma cache_stays_populated_witness : is_Some (currentConfig later).
Proof.
  apply (cache_stays_populated
           (H := Reference.host true (inr response_ab) None) fetched_ab later).
  - apply fetched_ab_later.
  - exists 0. vm_compute. reflexivity.
Defined.

(** A fetch over a storage that holds another entry. *)
Lemma storage_other_paths_untouched_witness :
  storage (snd (await_get (H := Reference.host false (inr response_ab) None)
                  shared)) !! "other" = Some "kept".
Proof.
  rewrite (storage_other_paths_untouched
             (H := Reference.host false (inr response_ab) None) shared
             (snd (await_get (H := Reference.host false (inr response_ab) None)
                     shared)) "other").
  - vm_compute. reflexivity.
  - apply rtc_once. eapply api_static_get. apply surjective_pairing.
  - vm_compute. discriminate.
Defined.

(** The step from the fresh module to [fetched_ab] wrote the storage: it
    was a [get()]. *)
Lemma only_get_writes_storage_witness :
  exists r,
    await_get (H := Reference.host true (inr response_ab) None)
      (initial_World ∅) = (r, fetched_ab).
Proof.
  apply (only_get_writes_storage
           (H := Reference.host true (inr response_ab) None)
           (initial_World ∅) fetched_ab).
  - eapply api_static_get. apply surjective_pairing.
  - intros Heq.
    apply (f_equal (fun s => s !! Reference.generatePath CURRENT_CONFIG_KEY))
      in Heq.
    vm_compute in Heq. discriminate.
Defined.

(** The server is offline at first and answers later: the world
    [changing] is one the program can bring about. *)
Lemma reachable_changing : reachable (H := runtime) changing.
Proof.
  eapply reachable_static_get with (b := backend_html);
    [|apply surjective_pairing].
  eapply reachable_escape with (this := 0) (attr := "a");
    [|apply surjective_pairing].
  eapply reachable_current with (b := backend_offline);
    [|apply surjective_pairing].
  eapply reachable_static_get with (b := backend_offline);
    [|apply surjective_pairing].
  apply reachable_initial.
Qed.

Lemma reachable_cache_live_witness :
  currentConfig changing = Some 1 /\ is_Some (heap changing !! 1).
Proof.
  split; [vm_compute; reflexivity|].
  apply (reachable_cache_live (H := runtime) changing).
  - apply reachable_changing.
  - vm_compute. reflexivity.
Defined.

Lemma reachable_consistent_witness :
  World_consistent (H := runtime) changing.
Proof.
  apply (reachable_consistent (H := runtime) changing).
  apply reachable_changing.
Defined.

(** A module over a storage that holds [{"a":1}], read twice. *)
Lemma current_hydrates_once_witness :
  exists w1,
    await_current (H := Reference.host true offline None) (stored snapshot_a1)
    = (inr 0, w1)
    /\ DefaultController.current (H := Reference.host true offline None) w1
       = (Normal (Sync 0), w1).
Proof.
  destruct (current_hydrates_once
              (H := Reference.host true offline None) (stored snapshot_a1)
              snapshot_a1 (VObj [("a", VNum 1)]) (VObj [("a", VNum 1)]))
    as (config & w1 & Hrun & _ & Hcur).
  - reflexivity.
  - reflexivity.
  - vm_compute. discriminate.
  - vm_compute. reflexivity.
  - reflexivity.
  - reflexivity.
  - reflexivity.
  - reflexivity.
  - assert (Hfst : fst (await_current (H := Reference.host true offline None)
                         (stored snapshot_a1)) = inr 0)
      by (vm_compute; reflexivity).
    rewrite Hrun in Hfst. injection Hfst as ->.
    exists w1. by split.
Defined.

(** [current()] is pending on an asynchronous storage that holds
    [{"a":1}] while a [get()] runs to its end; then the read completes. *)
Lemma pending_current_overrides_cache_witness :
  exists p w1 w2 w3,
    DefaultController.current
      (H := Reference.host true (inr response_ab) None) (stored snapshot_a1)
    = (Normal (Async p), w1)
    /\ await_get (H := Reference.host true (inr response_ab) None) w1
       = (inr 1, w2)
    /\ currentConfig w2 = Some 1
    /\ settle (H := Reference.host true (inr response_ab) None) p w2
       = (inr 0, w3)
    /\ currentConfig w3 = Some 0.
Proof.
  destruct (pending_current_overrides_cache
              (H := Reference.host true (inr response_ab) None)
              (stored snapshot_a1) eq_refl eq_refl)
    as (p & w1 & Hcur & Hlate).
  assert (Hw1 : w1 = snd (DefaultController.current
                            (H := Reference.host true (inr response_ab) None)
                            (stored snapshot_a1)))
    by (by rewrite Hcur).
  exists p, w1.
  exists (snd (await_get (H := Reference.host true (inr response_ab) None) w1)).
  destruct (Hlate
              (snd (await_get (H := Reference.host true (inr response_ab) None)
                      w1))
              json_ab (VObj params_ab) (VObj params_ab))
    as (w3 & o & Hsettle & Hc3 & _); try (subst w1).
  - apply rtc_once. eapply api_static_get. apply surjective_pairing.
  - reflexivity.
  - vm_compute. reflexivity.
  - vm_compute. discriminate.
  - vm_compute. reflexivity.
  - reflexivity.
  - reflexivity.
  - reflexivity.
  - exists w3. split; [exact Hcur|]. split; [vm_compute; reflexivity|].
    split; [vm_compute; reflexivity|]. split; [exact Hsettle|exact Hc3].
Defined.
